(** * The AI quiz generation route: model and properties

    A shallow embedding of [src/app/api/ai-quiz/generate/route.ts] (the
    [POST] handler): the clean-up of the model output, the three-stage
    tolerant JSON parse, the multiple-choice filter, the construction of the
    question documents and the creation of the quiz, question and session
    documents.

    The login route, [src/app/api/users/login/route.ts], and the collection
    page, [src/app/my-collection/page.tsx], are embedded as well. *)

From Stdlib Require Import QArith Qabs String Ascii DecimalString Lia.
From Stdlib Require Import DecimalN DecimalPos.
From stdpp Require Import gmap list.

Set Default Proof Using "Type".
Local Open Scope N_scope.

(** * JavaScript strings

    A JavaScript string is a sequence of UTF-16 code units.  A code unit is
    kept as its number, so that JSON [\uXXXX] escapes and the Unicode
    white-space characters are represented exactly. *)

Abbreviation code_unit := N (only parsing).
Abbreviation jstring := (list N) (only parsing).

Definition ch (a : ascii) : N := N_of_ascii a.
Arguments ch : simpl never.

(** [js "..."] is the JavaScript string with the code units of an ASCII
    literal. *)
Definition js (s : string) : jstring := map ch (list_ascii_of_string s).

(** The characters matched by [\s] in a regular expression; these are also
    the characters removed by [String.prototype.trim] (WhiteSpace and
    LineTerminator code points). *)
Definition is_space (c : N) : bool :=
  ((9 <=? c) && (c <=? 13)) || (c =? 32) || (c =? 160) || (c =? 5760)
  || ((8192 <=? c) && (c <=? 8202)) || (c =? 8232) || (c =? 8233)
  || (c =? 8239) || (c =? 8287) || (c =? 12288) || (c =? 65279).

(** [String.prototype.trim]. *)
Fixpoint trim_start (s : jstring) : jstring :=
  match s with
  | c :: s' => if is_space c then trim_start s' else s
  | [] => []
  end.

Definition trim_end (s : jstring) : jstring := rev (trim_start (rev s)).

Definition trim (s : jstring) : jstring := trim_end (trim_start s).

(** * Regular expressions

    The four patterns of the handler are sequences of single characters and
    character classes, each taken once or under a star (greedy [*] or lazy
    [*?]), with at most one capture group.  [x+] is written [x x*].  The
    matcher is the backtracking matcher of ECMAScript restricted to this
    fragment. *)

Inductive quantifier := Once | Greedy | Lazy.

Record item := Item {
  accepts : N -> bool;      (* the character class *)
  quant : quantifier;
  captured : bool           (* inside the capture group [$1] *)
}.

Abbreviation regex := (list item) (only parsing).

Record hit := Hit {
  whole : jstring;          (* the matched text *)
  group1 : jstring;         (* the text of the capture group *)
  after : jstring           (* the input that follows the match *)
}.

Definition consume (it : item) (c : N) (h : hit) : hit :=
  {| whole := c :: whole h;
     group1 := if captured it then c :: group1 h else group1 h;
     after := after h |}.

(** A match of [r] anchored at the start of [s]. *)
Fixpoint match_here (r : regex) (s : jstring) : option hit :=
  match r with
  | [] => Some (Hit [] [] s)
  | it :: r' =>
    match quant it with
    | Once =>
      match s with
      | c :: s' =>
        if accepts it c then consume it c <$> match_here r' s' else None
      | [] => None
      end
    | Greedy =>
      (fix star (s : jstring) : option hit :=
         match s with
         | c :: s' =>
           if accepts it c then
             match star s' with
             | Some h => Some (consume it c h)
             | None => match_here r' s
             end
           else match_here r' s
         | [] => match_here r' []
         end) s
    | Lazy =>
      (fix star (s : jstring) : option hit :=
         match match_here r' s with
         | Some h => Some h
         | None =>
           match s with
           | c :: s' => if accepts it c then consume it c <$> star s' else None
           | [] => None
           end
         end) s
    end
  end.

(** The leftmost match of [r] in [s], with the text before it. *)
Fixpoint search (r : regex) (s : jstring) : option (jstring * hit) :=
  match match_here r s with
  | Some h => Some ([], h)
  | None =>
    match s with
    | c :: s' => (fun bh => (c :: fst bh, snd bh)) <$> search r s'
    | [] => None
    end
  end.

(** [s.replace(r, "$1")] for a pattern without the [g] flag: the first match
    is replaced by its capture group. *)
Definition replace_first_by_group (r : regex) (s : jstring) : jstring :=
  match search r s with
  | Some (before, h) => before ++ group1 h ++ after h
  | None => s
  end.

(** [s.replace(r, rep)] for a pattern with the [g] flag and a replacement
    without [$]: every match, found from left to right, is replaced.  The
    patterns of the handler match at least one character, so the scan
    resumes after the match and [length s] rounds are enough. *)
Fixpoint replace_all_loop (n : nat) (r : regex) (rep s : jstring) : jstring :=
  match n with
  | O => s
  | S n' =>
    match search r s with
    | Some (before, h) => before ++ rep ++ replace_all_loop n' r rep (after h)
    | None => s
    end
  end.

Definition replace_all (r : regex) (rep s : jstring) : jstring :=
  replace_all_loop (length s) r rep s.

(** [s.match(r)] for a pattern with the [g] flag: the matched texts from
    left to right ([null] is the empty list). *)
Fixpoint match_all_loop (n : nat) (r : regex) (s : jstring) : list jstring :=
  match n with
  | O => []
  | S n' =>
    match search r s with
    | Some (_, h) => whole h :: match_all_loop n' r (after h)
    | None => []
    end
  end.

Definition match_all (r : regex) (s : jstring) : list jstring :=
  match_all_loop (length s) r s.

Definition lit (a : ascii) : item := Item (N.eqb (ch a)) Once false.
Definition lits (s : string) : regex := map lit (list_ascii_of_string s).
Definition any_char (c : N) : bool := true.

(** [/```json\s*([\s\S]*?)```/] *)
Definition json_fence : regex :=
  lits "```json" ++ [Item is_space Greedy false; Item any_char Lazy true]
  ++ lits "```".

(** [/```([\s\S]*?)```/] *)
Definition plain_fence : regex :=
  lits "```" ++ [Item any_char Lazy true] ++ lits "```".

(** [/}\s*{/g] *)
Definition adjacent_objects : regex :=
  [lit "}"; Item is_space Greedy false; lit "{"].

(** [/{[^}]+}/g] *)
Definition not_close (c : N) : bool := negb (c =? ch "}").
Definition flat_object : regex :=
  [lit "{"; Item not_close Once false; Item not_close Greedy false; lit "}"].

(** * Lines 78-81: the clean-up of the model output *)

Definition normalize (generatedOutput : jstring) : jstring :=
  trim (replace_first_by_group plain_fence
          (replace_first_by_group json_fence generatedOutput)).

(** Line 88: [`[${generatedOutput.replace(/}\s*{/g, "},{")}]`]. *)
Definition fixedOutput (generatedOutput : jstring) : jstring :=
  js "[" ++ replace_all adjacent_objects (js "},{") generatedOutput ++ js "]".

(** [matches.join(",")]. *)
Fixpoint join_comma (l : list jstring) : jstring :=
  match l with
  | [] => []
  | [x] => x
  | x :: l' => x ++ js "," ++ join_comma l'
  end.

(** Line 94: [`[${matches.join(",")}]`]. *)
Definition joined (matches : list jstring) : jstring :=
  js "[" ++ join_comma matches ++ js "]".

(** * JavaScript values

    The values that [JSON.parse] and [request.json()] produce, and
    [undefined].  An array or object carries the reference of the heap
    object that holds it: two arrays (or objects) are the same value only
    when they are the same heap object.  A number is a double: a finite
    one is kept as the rational number that it is, and the two infinities
    have a constructor of their own.  The two zeros are one value (no
    operation of the program tells them apart), and [NaN], which neither
    [JSON.parse] nor [request.json()] produces, is not a value: an operation
    that results in it is not covered. *)

#[warnings="-register-all"]
Inductive value :=
| VUndefined
| VNull
| VBool (b : bool)
| VNum (q : Q)
| VInfinity (negative : bool)
| VStr (s : jstring)
| VArr (ref : N) (elems : list value)
| VObj (ref : N) (props : list (jstring * value)).

(** * Doubles

    The rounding of a real number to the nearest double (IEEE 754 binary64,
    ties to the even significand), which is how a number literal is read
    and how the result of an arithmetic operation is obtained. *)

(** The integer nearest to [n / d], the even one of two that are equally
    near ([0 <= n] and [0 < d]). *)
Definition round_half_even (n d : Z) : Z :=
  let q := (n / d)%Z in
  match (2 * (n mod d) ?= d)%Z with
  | Lt => q
  | Gt => (q + 1)%Z
  | Eq => if Z.even q then q else (q + 1)%Z
  end.

(** [n / d] divided by [2 ^ e], as a fraction. *)
Definition scale (n d e : Z) : Z * Z :=
  if (0 <=? e)%Z then (n, (d * 2 ^ e)%Z) else ((n * 2 ^ (- e))%Z, d).

(** The exponent [e] with [2 ^ e <= n / d < 2 ^ (e + 1)], for [0 < n] and
    [0 < d]. *)
Definition exponent (n d : Z) : Z :=
  let e := (Z.log2 n - Z.log2 d)%Z in
  let (n', d') := scale n d e in
  if (n' <? d')%Z then (e - 1)%Z else e.

(** [m * 2 ^ e] *)
Definition binary (m e : Z) : Q :=
  if (0 <=? e)%Z then inject_Z (m * 2 ^ e)
  else Qmake m (Z.to_pos (2 ^ (- e))).

(** The double nearest to [q]; [None] when it is beyond the largest finite
    double (the result is then an infinity).  The significand has 53 bits,
    and the unit in the last place is [2 ^ p] with [p] at least -1074 (the
    subnormal numbers) and at most 971. *)
Definition round_double (q : Q) : option Q :=
  let q' := Qred q in
  let n := Z.abs (Qnum q') in
  let d := Z.pos (Qden q') in
  if (n =? 0)%Z then Some 0%Q
  else
    let p := Z.max (exponent n d - 52) (-1074) in
    let (n', d') := scale n d p in
    let m := round_half_even n' d' in
    if ((971 <? p) || ((p =? 971) && (2 ^ 53 <=? m)))%Z then None
    else Some (Qred (binary (Z.sgn (Qnum q') * m) p)).

(** The Number value of a real number. *)
Definition number (q : Q) : value :=
  match round_double q with
  | Some d => VNum d
  | None => VInfinity (Qnum q <? 0)%Z
  end.

(** * [JSON.parse]

    The JSON grammar of ECMA-404, as [JSON.parse] reads it: a recursive
    descent over the code units.  [next] is the next free heap reference. *)

Inductive parsed (A : Type) :=
| Parsed (a : A) (rest : jstring) (next : N)
| SyntaxError
| OutOfFuel.
Arguments Parsed {A} a rest next.
Arguments SyntaxError {A}.
Arguments OutOfFuel {A}.

Definition pbind {A B} (p : parsed A) (k : A -> jstring -> N -> parsed B)
  : parsed B :=
  match p with
  | Parsed a rest next => k a rest next
  | SyntaxError => SyntaxError
  | OutOfFuel => OutOfFuel
  end.

Definition dquote : N := 34.
Definition backslash : N := 92.

Definition is_json_ws (c : N) : bool :=
  (c =? 32) || (c =? 9) || (c =? 10) || (c =? 13).

Fixpoint skip_ws (s : jstring) : jstring :=
  match s with
  | c :: s' => if is_json_ws c then skip_ws s' else s
  | [] => []
  end.

Fixpoint strip_prefix (p s : jstring) : option jstring :=
  match p, s with
  | [], _ => Some s
  | a :: p', c :: s' => if a =? c then strip_prefix p' s' else None
  | _ :: _, [] => None
  end.

Definition is_digit (c : N) : bool := (48 <=? c) && (c <=? 57).

Fixpoint span_digits (s : jstring) : jstring * jstring :=
  match s with
  | c :: s' =>
    if is_digit c then let (ds, r) := span_digits s' in (c :: ds, r)
    else ([], s)
  | [] => ([], [])
  end.

Definition N_of_digits (ds : jstring) : N :=
  fold_left (fun acc d => 10 * acc + (d - 48)) ds 0.

Definition hex_val (c : N) : option N :=
  if is_digit c then Some (c - 48)
  else if (65 <=? c) && (c <=? 70) then Some (c - 55)
  else if (97 <=? c) && (c <=? 102) then Some (c - 87)
  else None.

Definition hex4 (a b c d : N) : option N :=
  match hex_val a, hex_val b, hex_val c, hex_val d with
  | Some x, Some y, Some z, Some w => Some (((x * 16 + y) * 16 + z) * 16 + w)
  | _, _, _, _ => None
  end.

Definition simple_escape (c : N) : option N :=
  if c =? dquote then Some dquote
  else if c =? backslash then Some backslash
  else if c =? ch "/" then Some (ch "/")
  else if c =? ch "b" then Some 8
  else if c =? ch "f" then Some 12
  else if c =? ch "n" then Some 10
  else if c =? ch "r" then Some 13
  else if c =? ch "t" then Some 9
  else None.

(** The characters of a string literal after its opening quote, up to and
    including the closing quote. *)
Fixpoint parse_string (s : jstring) : option (jstring * jstring) :=
  match s with
  | [] => None
  | c :: r =>
    if c =? dquote then Some ([], r)
    else if c =? backslash then
      match r with
      | e :: r' =>
        if e =? ch "u" then
          match r' with
          | h1 :: h2 :: h3 :: h4 :: r'' =>
            match hex4 h1 h2 h3 h4 with
            | Some u => (fun p => (u :: fst p, snd p)) <$> parse_string r''
            | None => None
            end
          | _ => None
          end
        else
          match simple_escape e with
          | Some u => (fun p => (u :: fst p, snd p)) <$> parse_string r'
          | None => None
          end
      | [] => None
      end
    else if c <? 32 then None
    else (fun p => (c :: fst p, snd p)) <$> parse_string r
  end.

(** The real number [m * 10^e] that a literal denotes. *)
Definition decimal (m e : Z) : Q :=
  if (0 <=? e)%Z then inject_Z (m * 10 ^ e)
  else Qred (Qmake m (Z.to_pos (10 ^ (- e)))).

(** A number literal: an optional minus sign, the integer part ([0], or a
    non-zero digit and more digits), an optional fraction (a dot and at
    least one digit) and an optional exponent ([e] or [E], an optional sign
    and at least one digit). *)
Definition parse_number (s : jstring) : option (Q * jstring) :=
  let '(neg, s1) :=
    match s with
    | c :: r => if c =? ch "-" then (true, r) else (false, s)
    | [] => (false, s)
    end in
  let int_part :=
    match s1 with
    | c :: r =>
      if c =? ch "0" then Some ([c], r)
      else if is_digit c then Some (span_digits s1)
      else None
    | [] => None
    end in
  match int_part with
  | None => None
  | Some (ints, s2) =>
    let frac_part :=
      match s2 with
      | c :: r =>
        if c =? ch "." then
          match span_digits r with
          | ([], _) => None
          | (fs, r') => Some (fs, r')
          end
        else Some ([], s2)
      | [] => Some ([], s2)
      end in
    match frac_part with
    | None => None
    | Some (fracs, s3) =>
      let exp_part :=
        match s3 with
        | c :: r =>
          if (c =? ch "e") || (c =? ch "E") then
            let '(eneg, r1) :=
              match r with
              | x :: r' =>
                if x =? ch "-" then (true, r')
                else if x =? ch "+" then (false, r')
                else (false, r)
              | [] => (false, r)
              end in
            match span_digits r1 with
            | ([], _) => None
            | (es, r2) =>
              let e := Z.of_N (N_of_digits es) in
              Some (if eneg then (- e)%Z else e, r2)
            end
          else Some (0%Z, s3)
        | [] => Some (0%Z, s3)
        end in
      match exp_part with
      | None => None
      | Some (e, s4) =>
        let m := Z.of_N (N_of_digits (ints ++ fracs)) in
        Some (decimal (if neg then (- m)%Z else m)
                      (e - Z.of_nat (length fracs)), s4)
      end
    end
  end.

Definition of_option {A} (o : option (A * jstring)) (next : N) : parsed A :=
  match o with
  | Some (a, rest) => Parsed a rest next
  | None => SyntaxError
  end.

(** [parse_value] reads one value at the head of [s]; [parse_elements] the
    elements of an array after [[] and [parse_members] the members of an
    object after [{], both up to and including the closing bracket. *)
Fixpoint parse_value (fuel : nat) (s : jstring) (next : N) {struct fuel}
  : parsed value :=
  match fuel with
  | O => OutOfFuel
  | S fuel' =>
    match s with
    | [] => SyntaxError
    | c :: r =>
      if c =? ch "{" then
        match skip_ws r with
        | c' :: r' =>
          if c' =? ch "}" then Parsed (VObj next []) r' (next + 1)
          else pbind (parse_members fuel' (c' :: r') (next + 1))
                 (fun ps rest n => Parsed (VObj next ps) rest n)
        | [] => SyntaxError
        end
      else if c =? ch "[" then
        match skip_ws r with
        | c' :: r' =>
          if c' =? ch "]" then Parsed (VArr next []) r' (next + 1)
          else pbind (parse_elements fuel' (c' :: r') (next + 1))
                 (fun vs rest n => Parsed (VArr next vs) rest n)
        | [] => SyntaxError
        end
      else if c =? dquote then
        of_option ((fun p => (VStr (fst p), snd p)) <$> parse_string r) next
      else
        match strip_prefix (js "true") s with
        | Some rest => Parsed (VBool true) rest next
        | None =>
          match strip_prefix (js "false") s with
          | Some rest => Parsed (VBool false) rest next
          | None =>
            match strip_prefix (js "null") s with
            | Some rest => Parsed VNull rest next
            | None =>
              of_option ((fun p => (number (fst p), snd p)) <$> parse_number s)
                        next
            end
          end
        end
    end
  end

with parse_elements (fuel : nat) (s : jstring) (next : N) {struct fuel}
  : parsed (list value) :=
  match fuel with
  | O => OutOfFuel
  | S fuel' =>
    pbind (parse_value fuel' s next) (fun v rest n =>
      match skip_ws rest with
      | c :: r =>
        if c =? ch "," then
          pbind (parse_elements fuel' (skip_ws r) n)
            (fun vs rest' n' => Parsed (v :: vs) rest' n')
        else if c =? ch "]" then Parsed [v] r n
        else SyntaxError
      | [] => SyntaxError
      end)
  end

with parse_members (fuel : nat) (s : jstring) (next : N) {struct fuel}
  : parsed (list (jstring * value)) :=
  match fuel with
  | O => OutOfFuel
  | S fuel' =>
    match s with
    | c :: r =>
      if c =? dquote then
        match parse_string r with
        | Some (k, r1) =>
          match skip_ws r1 with
          | c1 :: r2 =>
            if c1 =? ch ":" then
              pbind (parse_value fuel' (skip_ws r2) next) (fun v rest n =>
                match skip_ws rest with
                | c3 :: r4 =>
                  if c3 =? ch "," then
                    pbind (parse_members fuel' (skip_ws r4) n)
                      (fun ps rest' n' => Parsed ((k, v) :: ps) rest' n')
                  else if c3 =? ch "}" then Parsed [(k, v)] r4 n
                  else SyntaxError
                | [] => SyntaxError
                end)
            else SyntaxError
          | [] => SyntaxError
          end
        | None => SyntaxError
        end
      else SyntaxError
    | [] => SyntaxError
    end
  end.

(** [JSON.parse(text)]: [None] is the [SyntaxError] exception.  The fuel
    covers every text (see [JSON_parse_fuel]). *)
Definition parse_top (fuel : nat) (text : jstring) : parsed value :=
  pbind (parse_value fuel (skip_ws text) 0) (fun v rest n =>
    match skip_ws rest with
    | [] => Parsed v [] n
    | _ :: _ => SyntaxError
    end).

Definition json_fuel (text : jstring) : nat := 2 * length text + 1.

Definition JSON_parse (text : jstring) : option value :=
  match parse_top (json_fuel text) text with
  | Parsed v _ _ => Some v
  | _ => None
  end.

(** * Lines 83-111: the tolerant parse

    The three nested [try] blocks.  The result comes with the list of the
    stages that were entered, in the order they ran. *)

Inductive stage := Direct | Repair | Extract.

Definition parse_generated (generatedOutput : jstring)
  : list stage * option value :=
  match JSON_parse generatedOutput with
  | Some v => ([Direct], Some v)
  | None =>
    match JSON_parse (fixedOutput generatedOutput) with
    | Some v => ([Direct; Repair], Some v)
    | None =>
      match match_all flat_object generatedOutput with
      | [] => ([Direct; Repair; Extract], None)
      | matches => ([Direct; Repair; Extract], JSON_parse (joined matches))
      end
    end
  end.

(** Lines 109-111: [if (!Array.isArray(q)) q = [q]]. *)
Definition ensure_array (generatedQuestions : value) : list value :=
  match generatedQuestions with
  | VArr _ elems => elems
  | v => [v]
  end.

(** The sequence of candidate questions, when one of the stages succeeds. *)
Definition candidates (generatedOutput : jstring) : option (list value) :=
  ensure_array <$> snd (parse_generated generatedOutput).

(** * Operations on values *)

(** [!!v] *)
Definition truthy (v : value) : bool :=
  match v with
  | VUndefined | VNull => false
  | VBool b => b
  | VNum q => negb (Qeq_bool q 0)
  | VInfinity _ => true
  | VStr s => match s with [] => false | _ => true end
  | VArr _ _ | VObj _ _ => true
  end.

(** [a || b] *)
Definition js_or (a b : value) : value := if truthy a then a else b.

(** The value of the property [k] of an object literal: of two members with
    the same key, [JSON.parse] keeps the last. *)
Definition own_property (k : jstring) (props : list (jstring * value)) : value :=
  fold_left (fun found kv => if decide (kv.1 = k) then kv.2 else found)
            props VUndefined.

(** [v.k] for the property names that the handler reads ([topic],
    [options], [points], ...), none of which is defined on a prototype:
    [None] is the [TypeError] raised on [null] and [undefined]. *)
Definition get (v : value) (k : string) : option value :=
  match v with
  | VUndefined | VNull => None
  | VObj _ props => Some (own_property (js k) props)
  | _ => Some VUndefined
  end.

(** [v?.k] *)
Definition get_optional (v : value) (k : string) : value :=
  match get v k with
  | Some x => x
  | None => VUndefined
  end.

Definition decimal_string (n : N) : jstring :=
  js (NilZero.string_of_uint (N.to_uint n)).

(** [v[index]] for an array index. *)
Definition get_index (v : value) (index : nat) : option value :=
  match v with
  | VUndefined | VNull => None
  | VArr _ elems => Some (nth index elems VUndefined)
  | VStr s => Some (match s !! index with
                    | Some c => VStr [c]
                    | None => VUndefined
                    end)
  | VObj _ props => Some (own_property (decimal_string (N.of_nat index)) props)
  | _ => Some VUndefined
  end.

(** SameValueZero, the comparison of [Array.prototype.includes]. *)
Definition same_value_zero (a b : value) : bool :=
  match a, b with
  | VUndefined, VUndefined => true
  | VNull, VNull => true
  | VBool x, VBool y => eqb x y
  | VNum x, VNum y => Qeq_bool x y
  | VInfinity x, VInfinity y => eqb x y
  | VStr x, VStr y => bool_decide (x = y)
  | VArr x _, VArr y _ => x =? y
  | VObj x _, VObj y _ => x =? y
  | _, _ => false
  end.

(** [options.includes(x)] *)
Definition includes (options : list value) (x : value) : bool :=
  existsb (same_value_zero x) options.

(** [`${v}`]: the string conversion of a template literal, for strings,
    booleans, [null], [undefined], the infinities and the whole numbers up
    to 2^53, whose digits are all printed; the conversion of other numbers
    (which prints the shortest digits that read back as the number) and of
    arrays and objects is not covered. *)
Definition to_string (v : value) : option jstring :=
  match v with
  | VUndefined => Some (js "undefined")
  | VNull => Some (js "null")
  | VBool true => Some (js "true")
  | VBool false => Some (js "false")
  | VStr s => Some s
  | VNum q =>
    let q' := Qred q in
    if (Qden q' =? 1)%positive && (Z.abs (Qnum q') <=? 2 ^ 53)%Z then
      Some ((if (Qnum q' <? 0)%Z then js "-" else [])
              ++ decimal_string (Z.abs_N (Qnum q')))
    else None
  | VInfinity false => Some (js "Infinity")
  | VInfinity true => Some (js "-Infinity")
  | VArr _ _ | VObj _ _ => None
  end.

(** The number that [+] takes for an operand when neither operand is a
    string; [undefined] gives [NaN], and an array or an object is first
    turned into a string: both are not covered. *)
Definition to_number (v : value) : option value :=
  match v with
  | VNull | VBool false => Some (VNum 0)
  | VBool true => Some (VNum 1)
  | VNum _ | VInfinity _ => Some v
  | _ => None
  end.

(** The sum of two numbers, rounded; the sum of the two infinities is
    [NaN]. *)
Definition add_numbers (a b : value) : option value :=
  match a, b with
  | VNum x, VNum y => Some (number (x + y))
  | VNum _, VInfinity s | VInfinity s, VNum _ => Some (VInfinity s)
  | VInfinity s, VInfinity s' => if eqb s s' then Some (VInfinity s) else None
  | _, _ => None
  end.

(** [a + b]: the concatenation of the two strings when an operand is a
    string, the sum of the two numbers otherwise; [None] when a conversion
    is not covered. *)
Definition js_add (a b : value) : option value :=
  match a, b with
  | VStr _, _ | _, VStr _ =>
    x ← to_string a; y ← to_string b; Some (VStr (x ++ y))
  | _, _ =>
    x ← to_number a; y ← to_number b; add_numbers x y
  end.

(** * Documents and the database

    A document holds the fields that the handler sets, with the values that
    the handler gives them: what the schemas of the three Mongoose models
    would cast or reject is decided by the [environment] below. *)

Module Quiz.
(** Modelled from the spec: the schema of [quizModel] is missing; a quiz
    record has a title, a description, the user that created it, a duration
    in minutes and the total of the points of its questions. *)
Record t := Make {
  title : jstring;
  description : jstring;
  created_by : jstring;
  duration : value;
  total_points : value
}.
End Quiz.

Module Question.
(** Modelled from the spec: the schema of [questionModel] is missing; a
    question record has its quiz, a text, a type tag, its options, its
    correct answer and its points. *)
Record t := Make {
  quiz_id : N;
  question_text : value;
  question_type : string;
  options : list value;
  correct_answer : value;
  points : value
}.
End Question.

Module Session.
(** Modelled from the spec: the schema of [sessionModel] is missing; a
    session record has its quiz, its start and end times, its active flag
    and its join code, which the model generates.  A [Date] is its time
    value, in milliseconds since the epoch; [None] is an invalid date. *)
Record t := Make {
  quiz_id : N;
  start_time : Z;
  end_time : option Z;
  is_active : bool;
  join_code : value
}.
End Session.

(** The collections, keyed by [_id]. *)
Record store := Store {
  quizzes : gmap N Quiz.t;
  questions : list Question.t;
  sessions : gmap N Session.t
}.

(** * Requests, responses and collaborators *)

Record request := Request {
  body : option value;          (* [request.json()]; [None]: it throws *)
  authToken : option jstring    (* the value of the [authToken] cookie *)
}.

Inductive reply :=
| Error (error : string)
| Success (quizId sessionId : N) (join_code : value) (message : string).

Record response := Response { reply_body : reply; status : N }.

(** What the handler obtains from outside: the environment variables, the
    token verification, the completion service, the identifiers and the
    join code that Mongoose gives to new documents, the clock, and whether
    the database accepts a document ([false]: the call throws). *)
Record environment := Environment {
  JWT_SECRET : option jstring;
  jwt_verify : jstring -> jstring -> option (option jstring);
  GITHUB_TOKEN : option jstring;
  create_completion : jstring -> jstring -> option (option jstring);
  valid_object_id : jstring -> bool;
  quiz_object_id : N;
  session_object_id : N;
  session_join_code : value;
  now : Z;
  quiz_saves : Quiz.t -> bool;
  questions_insert : list Question.t -> bool;
  session_saves : Session.t -> bool
}.

(** * Control flow

    A step of the handler continues with a value, returns a response, throws
    an exception (caught by the outer [try] of the handler), or leaves the
    part of JavaScript that this development covers. *)

Inductive outcome (A : Type) :=
| Next (a : A)
| Return (r : response)
| Throw
| NotCovered.
Arguments Next {A} a.
Arguments Return {A} r.
Arguments Throw {A}.
Arguments NotCovered {A}.

Definition obind {A B} (o : outcome A) (k : A -> outcome B) : outcome B :=
  match o with
  | Next a => k a
  | Return r => Return r
  | Throw => Throw
  | NotCovered => NotCovered
  end.

(** A step that may throw. *)
Definition throwing {A} (o : option A) : outcome A :=
  match o with Some a => Next a | None => Throw end.

(** A step that the development may not cover. *)
Definition covered {A} (o : option A) : outcome A :=
  match o with Some a => Next a | None => NotCovered end.

(** A call that throws unless [b] holds. *)
Definition throw_unless (b : bool) : outcome unit :=
  if b then Next tt else Throw.

(** [if (b) return r;] *)
Definition return_if (b : bool) (r : response) : outcome unit :=
  if b then Return r else Next tt.

#[global] Instance outcome_bind : MBind outcome := fun A B k o => obind o k.
#[global] Instance outcome_ret : MRet outcome := @Next.

Definition json_error (error : string) (status : N) : response :=
  Response (Error error) status.

Definition falsy_string (s : option jstring) : bool :=
  match s with Some (_ :: _) => false | _ => true end.

Definition string_or_empty (s : option jstring) : jstring :=
  match s with Some x => x | None => [] end.

(** * Lines 18-126: from the request to the filtered questions *)

Definition quoted (s : string) : jstring := [dquote] ++ js s ++ [dquote].
Definition newline : jstring := [10].

(** Lines 24-31. *)
Definition prompt (numQuestions topic : jstring) : jstring :=
  js "Generate " ++ numQuestions ++ js " quiz questions on the topic "
  ++ [dquote] ++ topic ++ [dquote] ++ js "." ++ newline
  ++ js "IMPORTANT: All questions must be strictly multiple choice only. Do not generate any short answer questions." ++ newline
  ++ js "Each question must include:" ++ newline
  ++ js "- " ++ quoted "question_text" ++ newline
  ++ js "- " ++ quoted "options" ++ js " (an array of at least 4 choices)" ++ newline
  ++ js "- " ++ quoted "correct_answer" ++ js " (one of the options)" ++ newline
  ++ js "- " ++ quoted "points" ++ js " (this will be overridden by the provided configuration)" ++ newline
  ++ js "Do not include any " ++ quoted "question_type" ++ js " field or markdown formatting.".

(** Lines 116-118: the callback of [filter];
    [None] is the [TypeError] of [q.options] on [null]. *)
Definition at_least_4_options (q : value) : option bool :=
  match get q "options" with
  | Some (VArr _ elems) => Some (4 <=? length elems)%nat
  | Some _ => Some false
  | None => None
  end.

(** [Array.prototype.filter] with a callback that may throw. *)
Fixpoint filter_throwing {A} (f : A -> option bool) (l : list A)
  : option (list A) :=
  match l with
  | [] => Some []
  | x :: l' =>
    match f x with
    | Some b =>
      match filter_throwing f l' with
      | Some kept => Some (if b then x :: kept else kept)
      | None => None
      end
    | None => None
    end
  end.

(** Lines 78-126: from the content of the completion to the questions
    that pass the filter. *)
Definition select_questions (content : jstring) : outcome (list value) :=
  (* lines 78-81 *)
  let generatedOutput := normalize content in
  (* lines 83-106 *)
  generatedQuestions ←
    match snd (parse_generated generatedOutput) with
    | Some v => Next v
    | None => Return (json_error "failed to parse generated questions" 500)
    end;
  (* lines 109-111 *)
  let generatedQuestions := ensure_array generatedQuestions in
  (* lines 116-118 *)
  filteredQuestions ←
    throwing (filter_throwing at_least_4_options generatedQuestions);
  (* lines 121-124 *)
  return_if (length filteredQuestions =? 0)%nat
    (json_error "failed to generate valid multiple choice questions" 500);;
  Next filteredQuestions.

(** The variables that are live at line 128. *)
Record locals := Locals {
  topic : jstring;              (* [`${topic}`] *)
  duration : value;
  questionConfigs : value;
  userId : jstring;
  filteredQuestions : list value
}.

Definition generate (env : environment) (req : request) : outcome locals :=
  (* line 18 *)
  json ← throwing (body req);
  topic ← throwing (get json "topic");
  numQuestions ← throwing (get json "numQuestions");
  duration ← throwing (get json "duration");
  questionConfigs ← throwing (get json "questionConfigs");
  (* lines 19-21 *)
  return_if (negb (truthy topic) || negb (truthy numQuestions))
    (json_error "missing required fields" 400);;
  (* lines 24-31 *)
  numQuestions_text ← covered (to_string numQuestions);
  topic_text ← covered (to_string topic);
  (* lines 33-36 *)
  return_if (falsy_string (authToken req))
    (json_error "user is not authenticated" 401);;
  let token := string_or_empty (authToken req) in
  (* lines 38-46 *)
  return_if (falsy_string (JWT_SECRET env))
    (json_error "invalid or expired token" 401);;
  decoded ← match jwt_verify env token (string_or_empty (JWT_SECRET env)) with
             | Some decoded => Next decoded
             | None => Return (json_error "invalid or expired token" 401)
             end;
  (* lines 47-50 *)
  return_if (falsy_string decoded)
    (json_error "could not determine user from token" 401);;
  let userId := string_or_empty decoded in
  (* lines 52-55 *)
  return_if (falsy_string (GITHUB_TOKEN env))
    (json_error "github token not configured" 500);;
  (* lines 57-71 *)
  content ← throwing (create_completion env
                         (string_or_empty (GITHUB_TOKEN env))
                         (prompt numQuestions_text topic_text));
  (* lines 73-77 *)
  return_if (falsy_string content)
    (json_error "no ai output returned" 500);;
  (* lines 78-126 *)
  filteredQuestions ← select_questions (string_or_empty content);
  Next (Locals topic_text duration questionConfigs userId filteredQuestions).

(** * Lines 128-181: the quiz, its questions and the session *)

(** A step that reads or writes the database. *)
Definition action (A : Type) : Type := store -> outcome A * store.

#[global] Instance action_bind : MBind action := fun A B k m st =>
  match m st with
  | (Next a, st') => k a st'
  | (Return r, st') => (Return r, st')
  | (Throw, st') => (Throw, st')
  | (NotCovered, st') => (NotCovered, st')
  end.
#[global] Instance action_ret : MRet action := fun A a st => (Next a, st).

Definition pure {A} (o : outcome A) : action A := fun st => (o, st).

(** [await newQuiz.save()] *)
Definition save_quiz (env : environment) (_id : N) (newQuiz : Quiz.t)
  : action unit := fun st =>
  if quiz_saves env newQuiz then
    (Next tt, Store (<[_id := newQuiz]> (quizzes st)) (questions st) (sessions st))
  else (Throw, st).

(** [await Question.insertMany(questionDocs)] *)
Definition insertMany (env : environment) (questionDocs : list Question.t)
  : action unit := fun st =>
  if questions_insert env questionDocs then
    (Next tt, Store (quizzes st) (questions st ++ questionDocs) (sessions st))
  else (Throw, st).

(** [await newSession.save()] *)
Definition save_session (env : environment) (_id : N) (newSession : Session.t)
  : action unit := fun st =>
  if session_saves env newSession then
    (Next tt, Store (quizzes st) (questions st) (<[_id := newSession]> (sessions st)))
  else (Throw, st).

Definition default_options : list value :=
  [VStr (js "Option A"); VStr (js "Option B");
   VStr (js "Option C"); VStr (js "Option D")].

(** Line 140: the options of the question, or the four placeholders. *)
Definition final_options (q_options : value) : list value :=
  match q_options with
  | VArr _ elems => if (4 <=? length elems)%nat then elems else default_options
  | _ => default_options
  end.

(** Line 142: the answer of the question if it is truthy and among the
    options, the first option otherwise. *)
Definition final_answer (options : list value) (q_correct_answer : value)
  : value :=
  if truthy q_correct_answer && includes options q_correct_answer
  then q_correct_answer
  else nth 0 options VUndefined.

(** Line 150: [questionConfigs[index]?.points || 10]; [None] is the
    [TypeError] of indexing [null] or [undefined]. *)
Definition final_points (questionConfigs : value) (index : nat)
  : option value :=
  config ← get_index questionConfigs index;
  Some (js_or (get_optional config "points") (VNum 10)).

(** Lines 138-152: the callback of [map]; [None] is a [TypeError]. *)
Definition questionDoc (newQuiz_id : N) (questionConfigs : value)
    (q : value) (index : nat) : option Question.t :=
  q_options ← get q "options";
  let options := final_options q_options in
  q_correct_answer ← get q "correct_answer";
  let correct_answer := final_answer options q_correct_answer in
  q_question_text ← get q "question_text";
  points ← final_points questionConfigs index;
  Some {| Question.quiz_id := newQuiz_id;
          Question.question_text := q_question_text;
          Question.question_type := "MCQ";
          Question.options := options;
          Question.correct_answer := correct_answer;
          Question.points := points |}.

(** [Array.prototype.map] with a callback that takes the index and may
    throw. *)
Fixpoint map_throwing {A B} (f : A -> nat -> option B) (index : nat)
    (l : list A) : option (list B) :=
  match l with
  | [] => Some []
  | x :: l' =>
    y ← f x index;
    ys ← map_throwing f (S index) l';
    Some (y :: ys)
  end.

(** Line 158: [questionDocs.reduce((sum, q) => sum + q.points, 0)]. *)
Fixpoint reduce_points (sum : value) (questionDocs : list Question.t)
  : option value :=
  match questionDocs with
  | [] => Some sum
  | q :: rest =>
    sum' ← js_add sum (Question.points q);
    reduce_points sum' rest
  end.

(** The time value of [new Date(t)]: [t] without its fraction, and an
    invalid date beyond 8.64e15 milliseconds from the epoch. *)
Definition time_clip (t : Q) : option Z :=
  if Qle_bool (Qabs t) (inject_Z 8640000000000000)
  then Some (Z.quot (Qnum t) (Z.pos (Qden t)))
  else None.

(** Line 163: [new Date(sessionStartTime.getTime() + duration * 60000)],
    for a duration that is a number: the product and the sum are rounded,
    and the date is invalid when one of them is an infinity.  What the
    schema of the quiz makes of another duration is not covered. *)
Definition sessionEndTime (sessionStartTime : Z) (duration : value)
  : option (option Z) :=
  match duration with
  | VNum d =>
    match number (d * inject_Z 60000) with
    | VNum product =>
      match number (inject_Z sessionStartTime + product) with
      | VNum t => Some (time_clip t)
      | _ => Some None
      end
    | _ => Some None
    end
  | VInfinity _ => Some None
  | _ => None
  end.

(** Lines 128-134: [new Quiz({...})]. *)
Definition newQuiz (l : locals) : Quiz.t :=
  {| Quiz.title := js "ai quiz on " ++ topic l;
     Quiz.description := js "automatically generated quiz about " ++ topic l;
     Quiz.created_by := userId l;
     Quiz.duration := js_or (duration l) (VNum 10);
     Quiz.total_points := VNum 0 |}.

(** Line 159: [newQuiz.total_points = totalQuizPoints]. *)
Definition set_total_points (quiz : Quiz.t) (totalQuizPoints : value) : Quiz.t :=
  {| Quiz.title := Quiz.title quiz;
     Quiz.description := Quiz.description quiz;
     Quiz.created_by := Quiz.created_by quiz;
     Quiz.duration := Quiz.duration quiz;
     Quiz.total_points := totalQuizPoints |}.

(** Lines 164-169: [new Session({...})]. *)
Definition newSession (env : environment) (newQuiz_id : N)
    (sessionStartTime : Z) (sessionEndTime : option Z) : Session.t :=
  {| Session.quiz_id := newQuiz_id;
     Session.start_time := sessionStartTime;
     Session.end_time := sessionEndTime;
     Session.is_active := true;
     Session.join_code := session_join_code env |}.

Definition created : string := "ai quiz generated successfully".

Definition create (env : environment) (l : locals) : action response :=
  (* lines 128-135 *)
  pure (throw_unless (valid_object_id env (userId l)));;
  let newQuiz_id := quiz_object_id env in
  save_quiz env newQuiz_id (newQuiz l);;
  (* lines 138-152 *)
  questionDocs ← pure (throwing
    (map_throwing (questionDoc newQuiz_id (questionConfigs l)) 0
                  (filteredQuestions l)));
  (* line 156 *)
  insertMany env questionDocs;;
  (* lines 158-160 *)
  totalQuizPoints ← pure (covered (reduce_points (VNum 0) questionDocs));
  let newQuiz := set_total_points (newQuiz l) totalQuizPoints in
  save_quiz env newQuiz_id newQuiz;;
  (* lines 162-170 *)
  let sessionStartTime := now env in
  end_time ← pure (covered
    (sessionEndTime sessionStartTime (Quiz.duration newQuiz)));
  let newSession := newSession env newQuiz_id sessionStartTime end_time in
  save_session env (session_object_id env) newSession;;
  (* lines 172-181 *)
  mret (Response (Success newQuiz_id (session_object_id env)
                          (Session.join_code newSession) created) 201).

(** Lines 182-185: the outer [catch]. *)
Definition caught (o : outcome response) : option response :=
  match o with
  | Next r | Return r => Some r
  | Throw => Some (json_error "internal server error" 500)
  | NotCovered => None
  end.

(** The handler: the response ([None] when the run leaves the part of
    JavaScript covered here) and the database after the run. *)
Definition POST (env : environment) (req : request) (st : store)
  : option response * store :=
  let '(o, st') := (l ← pure (generate env req); create env l) st in
  (caught o, st').

(** * Definitions for the statements *)

(** The number of characters that a match of [r] takes outside the capture
    group at least. *)
Fixpoint fixed (r : regex) : nat :=
  match r with
  | [] => 0
  | it :: r' =>
    match quant it, captured it with
    | Once, false => S (fixed r')
    | _, _ => fixed r'
    end
  end.

(** The three stages as the specification names them, each on its own. *)
Definition run_stage (s : stage) (text : jstring) : option value :=
  match s with
  | Direct => JSON_parse text
  | Repair => JSON_parse (fixedOutput text)
  | Extract =>
    match match_all flat_object text with
    | [] => None
    | matches => JSON_parse (joined matches)
    end
  end.

(** The specification of the fallback: the stages are tried in the given
    order, each at most once, up to the first that succeeds. *)
Fixpoint first_success (stages : list stage) (text : jstring)
  : list stage * option value :=
  match stages with
  | [] => ([], None)
  | s :: rest =>
    match run_stage s text with
    | Some v => ([s], Some v)
    | None => let (tried, result) := first_success rest text in
              (s :: tried, result)
    end
  end.

(** A number that is a positive integer. *)
Definition is_positive_integer (v : value) : bool :=
  match v with
  | VNum q => (0 <? Qnum q)%Z && (Qden (Qred q) =? 1)%positive
  | _ => false
  end.

(** * Sample inputs *)

(** [jsq "..."] is [js "..."] with a double quote for every apostrophe. *)
Definition jsq (s : string) : jstring :=
  map (fun c => if c =? ch "'" then dquote else c) (js s).

(** Two object literals without a separator. *)
Definition two_objects : jstring :=
  jsq "{'question_text':'A','options':['a','b','c','d'],'correct_answer':'a'}{'question_text':'B','options':['e','f','g','h'],'correct_answer':'e'}".

(** A question whose answer is the empty string, its fourth option. *)
Definition empty_answer_text : jstring :=
  jsq "[{'question_text':'Q','options':['a','b','c',''],'correct_answer':''}]".

Definition empty_answer_question : value :=
  VObj 1 [(js "question_text", VStr (js "Q"));
          (js "options", VArr 2 [VStr (js "a"); VStr (js "b"); VStr (js "c");
                                 VStr []]);
          (js "correct_answer", VStr [])].

(** Collaborators that all succeed; the completion service answers
    [output]. *)
Definition sample_environment (output : jstring) : environment :=
  {| JWT_SECRET := Some (js "secret");
     jwt_verify := fun _ _ => Some (Some (js "64b64c1f0f1d2c3b4a596877"));
     GITHUB_TOKEN := Some (js "token");
     create_completion := fun _ _ => Some (Some output);
     valid_object_id := fun _ => true;
     quiz_object_id := 1;
     session_object_id := 2;
     session_join_code := VStr (js "K7Q2XA");
     now := 1700000000000%Z;
     quiz_saves := fun _ => true;
     questions_insert := fun _ => true;
     session_saves := fun _ => true |}.

(** An authenticated request with the given fields in its body. *)
Definition sample_request (fields : list (jstring * value)) : request :=
  {| body := Some (VObj 0 fields); authToken := Some (js "cookie") |}.

Definition topic_and_count : list (jstring * value) :=
  [(js "topic", VStr (js "rivers")); (js "numQuestions", VNum 2)].

(** The configuration of one question, worth [points]. *)
Definition one_config (points : Q) : value :=
  VArr 1 [VObj 2 [(js "points", VNum points)]].

Definition empty_store : store := Store empty [] empty.

(** Requests: with a duration and a configuration, without configurations,
    and without a duration. *)
Definition configured_request : request :=
  sample_request (topic_and_count ++ [(js "duration", VNum 15);
                                      (js "questionConfigs", one_config 5)]).

Definition unconfigured_request : request := sample_request topic_and_count.

Definition request_without_duration : request :=
  sample_request (topic_and_count ++ [(js "questionConfigs", one_config 5)]).

(** A request that gives -5 points to the first question. *)
Definition negative_points_request : request :=
  sample_request (topic_and_count ++ [(js "questionConfigs", one_config (-5))]).

(** A request that configures 3 points for the first question and 7 for
    the second. *)
Definition two_configs_request : request :=
  sample_request
    (topic_and_count
       ++ [(js "questionConfigs",
            VArr 1 [VObj 2 [(js "points", VNum 3)];
                    VObj 3 [(js "points", VNum 7)]])]).

(** A request that gives the string 5 as the points of both questions. *)
Definition string_points_request : request :=
  sample_request
    (topic_and_count
       ++ [(js "questionConfigs",
            VArr 1 [VObj 2 [(js "points", VStr (js "5"))];
                    VObj 3 [(js "points", VStr (js "5"))]])]).


(** A model output with [null] in front of a question. *)
Definition null_and_question : jstring :=
  jsq "[null,{'question_text':'A','options':['a','b','c','d'],'correct_answer':'a'}]".

(** * Definitions for further statements *)

(** The document of a candidate that passed the filter. *)
Definition document_of (quiz_id : N) (q : value) (doc : Question.t) : Prop :=
  Question.quiz_id doc = quiz_id /\
  Question.question_type doc = "MCQ"%string /\
  get q "question_text" = Some (Question.question_text doc) /\
  exists ref, get q "options" = Some (VArr ref (Question.options doc)).


(** The character of the fences. *)
Definition backtick : N := ch "`".

(** A flat object: an opening brace, at least one character, none of them
    a closing brace, and a closing brace. *)
Definition flat (m : jstring) : Prop :=
  exists w, m = ch "{" :: w ++ [ch "}"] /\ w <> [] /\
            Forall (fun c => c <> ch "}") w.

(** * The login route

    A shallow embedding of [src/app/api/users/login/route.ts]. *)

(** [a === b]: numbers by value, strings by content, arrays and objects by
    reference (there is no [NaN] among the values here). *)
Definition strict_equal (a b : value) : bool :=
  match a, b with
  | VUndefined, VUndefined => true
  | VNull, VNull => true
  | VBool x, VBool y => eqb x y
  | VNum x, VNum y => Qeq_bool x y
  | VInfinity x, VInfinity y => eqb x y
  | VStr x, VStr y => bool_decide (x = y)
  | VArr x _, VArr y _ => x =? y
  | VObj x _, VObj y _ => x =? y
  | _, _ => false
  end.

Module Login.

(** A call returns a value or throws; [is_Error] tells whether the value
    thrown is an instance of [Error]. *)
Inductive result (A : Type) :=
| Returned (a : A)
| Threw (is_Error : bool).
Arguments Returned {A} a.
Arguments Threw {A} is_Error.

#[global] Instance result_bind : MBind result := fun A B k r =>
  match r with
  | Returned a => k a
  | Threw e => Threw e
  end.

(** The fields of a user document that the handler reads; the schema of
    [userModel] is not at hand, so they are any values. *)
Record user := User {
  _id : value;
  email : value;
  password : value
}.

Record request := Request {
  json : result value           (* [request.json()] *)
}.

Inductive reply :=
| Error (error : string)
| Token (message : string) (token : jstring).

Record response := Response { reply_body : reply; status : N }.

(** The collaborators: the environment variable, [User.findOne({ email })]
    ([None] is [null]) and [jwt.sign({ id, email }, secret, ...)]. *)
Record environment := Environment {
  TOKEN_SECRET : option jstring;
  findOne : value -> result (option user);
  jwt_sign : value -> value -> jstring -> result jstring
}.

(** Line 11: a property of the destructured body; destructuring [null]
    throws a [TypeError]. *)
Definition field (reqBody : value) (k : string) : result value :=
  match get reqBody k with
  | Some v => Returned v
  | None => Threw true
  end.

Definition invalid : response :=
  Response (Error "Invalid email or password.") 401.

(** Lines 10-48: the [try] block. *)
Definition try_block (env : environment) (req : request) : result response :=
  (* lines 10-11 *)
  reqBody ← json req;
  email ← field reqBody "email";
  password ← field reqBody "password";
  (* lines 13-18 *)
  if negb (truthy email) || negb (truthy password) then
    Returned (Response (Error "Email and password are required.") 400)
  else
    (* lines 20-26 *)
    found ← findOne env email;
    match found with
    | None => Returned invalid
    | Some user =>
      (* lines 28-33 *)
      if negb (strict_equal (Login.password user) password) then Returned invalid
      else
        (* lines 35-37 *)
        match TOKEN_SECRET env with
        | None | Some [] => Threw true
        | Some secret =>
          (* lines 39-48 *)
          token ← jwt_sign env (_id user) (Login.email user) secret;
          Returned (Response (Token "Login successful!" token) 200)
        end
    end.

(** The handler: [None] when it ends without a response (lines 49-57: the
    [catch] answers for instances of [Error] only). *)
Definition POST (env : environment) (req : request) : option response :=
  match try_block env req with
  | Returned r => Some r
  | Threw true => Some (Response (Error "Internal Server Error") 500)
  | Threw false => None
  end.

End Login.

(** * The collection page

    A shallow embedding of [src/app/my-collection/page.tsx]: the state of
    the component, the effect that loads the collection, the handler of the
    rehost button and the element that the component returns. *)

Module Collection.

(** Lines 17-20: the four state variables.  The collection is [null]
    ([None]) or holds what the reply gave as [hosted_quizzes] and
    [participated_quizzes]. *)
Record state := State {
  collection : option (value * value);
  loading : bool;
  error : value;
  rehostMessage : jstring
}.

Definition initial : state := State None true VNull [].

Definition setCollection (c : value * value) (st : state) : state :=
  State (Some c) (loading st) (error st) (rehostMessage st).
Definition setLoading (b : bool) (st : state) : state :=
  State (collection st) b (error st) (rehostMessage st).
Definition setError (e : value) (st : state) : state :=
  State (collection st) (loading st) e (rehostMessage st).
Definition setRehostMessage (m : jstring) (st : state) : state :=
  State (collection st) (loading st) (error st) m.

(** How a [fetch] ends: the promise is rejected, or a response arrives with
    its [ok] flag and its body as JSON ([None]: [res.json()] is
    rejected). *)
Inductive fetched :=
| Rejected
| Responded (ok : bool) (json : option value).

(** Lines 43-47: the [catch] of the effect. *)
Definition load_failed (st : state) : state :=
  setLoading false (setError (VStr (js "Failed to load quizzes")) st).

(** Lines 23-48: the state after the effect has run to its end. *)
Definition loaded (f : fetched) (st : state) : state :=
  match f with
  | Responded true (Some data) =>
    match get data "success" with
    | Some success =>
      if truthy success then
        setLoading false
          (setCollection (get_optional data "hosted_quizzes",
                          get_optional data "participated_quizzes") st)
      else setLoading false (setError (get_optional data "error") st)
    | None => load_failed st
    end
  | _ => load_failed st
  end.

(** What can go wrong in the [try] block of the rehost handler. *)
Inductive failure :=
| FetchRejected     (* [fetch] or [res.text()] is rejected *)
| NotJSON           (* [JSON.parse] throws a [SyntaxError] *)
| NoData.           (* [data.success] on [null]: a [TypeError] *)

(** The collaborators of the rehost handler: the raw text of the reply to
    the rehost request for a quiz ([None]: rejected), and the string
    conversion of an exception. *)
Record environment := Environment {
  rehost : value -> option jstring;
  describe : failure -> jstring
}.

(** ["Rehost failed: " + v] and [`${v}`]: the string conversion of
    [to_string]. *)
Definition rehost_failed (text : jstring) : jstring :=
  js "Rehost failed: " ++ text.

(** Lines 51-74: the state after the handler has run to its end; [None]
    when a string conversion is not covered. *)
Definition handleRehostQuiz (env : environment) (quizId : value) (st : state)
  : option state :=
  match rehost env quizId with
  | None => Some (setRehostMessage (rehost_failed (describe env FetchRejected)) st)
  | Some rawText =>
    match JSON_parse rawText with
    | None => Some (setRehostMessage (rehost_failed (describe env NotJSON)) st)
    | Some data =>
      match get data "success" with
      | None => Some (setRehostMessage (rehost_failed (describe env NoData)) st)
      | Some success =>
        if truthy success then
          id ← to_string quizId;
          code ← to_string (get_optional data "join_code");
          Some (setRehostMessage
                  (js "New session created for quiz " ++ id
                   ++ js "! Join code: " ++ code) st)
        else
          text ← to_string (get_optional data "error");
          Some (setRehostMessage (rehost_failed text) st)
      end
    end
  end.

(** ** The element that the component returns *)

(** An entry of a list: its key, the title and the identifier of the
    quiz (the identifier is what the rehost button passes to the
    handler). *)
Record entry := Entry {
  key : jstring;
  title : value;
  quiz_id : value
}.

(** The element tree: the loading paragraph, the error paragraph, or the
    page with its two lists ([None]: the paragraph that says that there is
    no quiz) and the rehost message, if it is shown. *)
Inductive view :=
| Loading
| Failed (error : value)
| Page (hosted : option (list entry)) (message : option jstring)
       (played : option (list entry)).

(** [v.length]; [None] is the [TypeError] on [null] and [undefined]. *)
Definition length_of (v : value) : option value :=
  match v with
  | VUndefined | VNull => None
  | VArr _ elems => Some (VNum (inject_Z (Z.of_nat (length elems))))
  | VStr s => Some (VNum (inject_Z (Z.of_nat (length s))))
  | VObj _ props => Some (own_property (js "length") props)
  | _ => Some VUndefined
  end.

(** Lines 86-98 and 109-113: the callback of [map]. *)
Definition entry_of (quiz : value) (index : nat) : outcome entry :=
  _id ← throwing (get quiz "_id");
  id_text ← covered (to_string _id);
  title ← throwing (get quiz "title");
  Next (Entry (id_text ++ js "-" ++ decimal_string (N.of_nat index)) title _id).

Fixpoint entries (quizzes : list value) (index : nat) : outcome (list entry) :=
  match quizzes with
  | [] => Next []
  | quiz :: rest =>
    e ← entry_of quiz index;
    es ← entries rest (S index);
    Next (e :: es)
  end.

(** Lines 84-102 and 107-117: [quizzes.length ? <ul>...</ul> : <p>...</p>]
    on a collection that is not [null]; [map] exists on arrays only. *)
Definition list_of (quizzes : value) : outcome (option (list entry)) :=
  len ← throwing (length_of quizzes);
  if truthy len then
    match quizzes with
    | VArr _ elems => es ← entries elems 0; Next (Some es)
    | _ => Throw
    end
  else Next None.

(** Lines 76-119. *)
Definition render (st : state) : outcome view :=
  if loading st then Next Loading
  else if truthy (error st) then Next (Failed (error st))
  else
    hosted ← match collection st with
             | Some (hosted_quizzes, _) => list_of hosted_quizzes
             | None => Next None
             end;
    let message :=
      match rehostMessage st with
      | [] => None
      | m => Some m
      end in
    played ← match collection st with
             | Some (_, participated_quizzes) => list_of participated_quizzes
             | None => Next None
             end;
    Next (Page hosted message played).

End Collection.

(** What an entry shows of its quiz. *)
Definition shows (quiz : value) (e : Collection.entry) : Prop :=
  get quiz "_id" = Some (Collection.quiz_id e) /\
  get quiz "title" = Some (Collection.title e).

(** ** Sample inputs of the login route and of the collection page *)

(** A request without the cookie of the caller. *)
Definition anonymous_request : request :=
  {| body := Some (VObj 0 topic_and_count); authToken := None |}.

(** The reply to a request that is answered 201 by [sample_environment]. *)
Definition sample_success : response :=
  Response (Success 1 2 (VStr (js "K7Q2XA")) created) 201.

Definition sample_user : Login.user :=
  {| Login._id := VStr (js "64b64c1f0f1d2c3b4a596877");
     Login.email := VStr (js "ada@example.org");
     Login.password := VStr (js "lovelace") |}.

(** One registered user; every token is signed. *)
Definition sample_login_environment (secret : option jstring) : Login.environment :=
  {| Login.TOKEN_SECRET := secret;
     Login.findOne := fun email =>
       Login.Returned (if strict_equal email (Login.email sample_user)
                       then Some sample_user else None);
     Login.jwt_sign := fun _ _ _ => Login.Returned (js "signed") |}.

Definition login_body (email password : string) : value :=
  VObj 0 [(js "email", VStr (js email)); (js "password", VStr (js password))].

Definition login_request (email password : string) : Login.request :=
  {| Login.json := Login.Returned (login_body email password) |}.

(** A reply of [/api/quizzes/user] with one hosted quiz, and the state of
    the page after it. *)
Definition sample_collection : value :=
  VObj 0 [(js "success", VBool true);
          (js "hosted_quizzes",
           VArr 1 [VObj 2 [(js "_id", VStr (js "q1"));
                           (js "title", VStr (js "Rivers"))]]);
          (js "participated_quizzes", VArr 3 [])].

Definition sample_page : Collection.state :=
  Collection.loaded (Collection.Responded true (Some sample_collection))
                    Collection.initial.

Definition sample_entry : Collection.entry :=
  {| Collection.key := js "q1-0";
     Collection.title := VStr (js "Rivers");
     Collection.quiz_id := VStr (js "q1") |}.

(** A reply in which the two hosted quizzes have the same identifier, and
    the two played quizzes too; the state of the page after it, and the
    entry that the page shows at a position. *)
Definition twin_collection : value :=
  VObj 0 [(js "success", VBool true);
          (js "hosted_quizzes",
           VArr 1 [VObj 2 [(js "_id", VStr (js "q1"));
                           (js "title", VStr (js "Rivers"))];
                   VObj 3 [(js "_id", VStr (js "q1"));
                           (js "title", VStr (js "Lakes"))]]);
          (js "participated_quizzes",
           VArr 4 [VObj 5 [(js "_id", VStr (js "q1"));
                           (js "title", VStr (js "Rivers"))];
                   VObj 6 [(js "_id", VStr (js "q1"));
                           (js "title", VStr (js "Seas"))]])].

Definition twin_page : Collection.state :=
  Collection.loaded (Collection.Responded true (Some twin_collection))
                    Collection.initial.

Definition twin_entry (index : N) (title : string) : Collection.entry :=
  {| Collection.key := js "q1-" ++ decimal_string index;
     Collection.title := VStr (js title);
     Collection.quiz_id := VStr (js "q1") |}.

(** A rehost request that is answered with a join code. *)
Definition sample_rehost : Collection.environment :=
  {| Collection.rehost := fun _ => Some (jsq "{'success':true,'join_code':'K7Q2XA'}");
     Collection.describe := fun _ => js "Error" |}.

(** * Evaluations of the definitions *)

Example normalize_fenced :
  normalize (js "```json
[1, 2]
```") = js "[1, 2]".
Proof. vm_compute. reflexivity. Qed.

Example fixedOutput_ex : fixedOutput (js "{} {}{}") = js "[{},{},{}]".
Proof. vm_compute. reflexivity. Qed.

Example match_all_ex :
  match_all flat_object (js "x {a} {} {b{c}") = [js "{a}"; js "{b{c}"].
Proof. vm_compute. reflexivity. Qed.

Example JSON_parse_ex1 :
  JSON_parse (js "[1.50, -2e2, true, null, {}]")
  = Some (VArr 0 [VNum (3 # 2); VNum (-200 # 1); VBool true; VNull; VObj 1 []]).
Proof. vm_compute. reflexivity. Qed.

(** A literal is read as the nearest double: 2^53 + 1 is not one, and 1e400
    is beyond the largest. *)
Example JSON_parse_rounds :
  JSON_parse (js "[9007199254740993, 1e400, -1e400, 1e-400]")
  = Some (VArr 0 [VNum 9007199254740992; VInfinity false; VInfinity true;
                  VNum 0]).
Proof. vm_compute. reflexivity. Qed.

(** 0.1 + 0.2 is 0.30000000000000004, and not the number 0.3. *)
Example js_add_rounds :
  js_add (number (1 # 10)) (number (2 # 10))
  = Some (number (30000000000000004 # 100000000000000000)) /\
  number (30000000000000004 # 100000000000000000) <> number (3 # 10).
Proof. split; [vm_compute; reflexivity|vm_compute; discriminate]. Qed.

Example js_add_concatenates :
  js_add (VNum 0) (VStr (js "5")) = Some (VStr (js "05")) /\
  js_add (VStr (js "05")) (VNum 5) = Some (VStr (js "055")) /\
  js_add (VNum 2) (VBool true) = Some (VNum 3).
Proof. vm_compute. repeat split; reflexivity. Qed.

(** A session of 1.999999999 minutes ends 120000 milliseconds after its
    start: the sum is rounded up to a whole number of milliseconds. *)
Example sessionEndTime_rounds :
  sessionEndTime 1700000000000 (number (1999999999 # 1000000000))
  = Some (Some 1700000120000%Z).
Proof. vm_compute. reflexivity. Qed.

(** The digits of a whole number beyond 2^53 are not covered. *)
Example to_string_large :
  to_string (VNum 9007199254740992) = Some (js "9007199254740992") /\
  to_string (VNum 1152921504606846976) = None.
Proof. vm_compute. split; reflexivity. Qed.

Example JSON_parse_ex2 : JSON_parse (js "{} {}") = None.
Proof. vm_compute. reflexivity. Qed.

Example JSON_parse_ex3 : JSON_parse (js "[1,]") = None.
Proof. vm_compute. reflexivity. Qed.

Example own_property_last :
  get_optional (VObj 0 [(js "points", VNum 1); (js "points", VNum 2)]) "points"
  = VNum 2.
Proof. reflexivity. Qed.

Example to_string_ex : to_string (VNum (-120 # 1)) = Some (js "-120").
Proof. vm_compute. reflexivity. Qed.

(** * Properties of the clean-up *)

(** ** Trimming *)

Lemma trim_start_head s c t : trim_start s = c :: t -> is_space c = false.
Proof.
  induction s as [|a s IH]; simpl; [discriminate|].
  destruct (is_space a) eqn:E; [exact IH|].
  intros [= <- _]. exact E.
Qed.

Lemma trim_start_fixed c t : is_space c = false -> trim_start (c :: t) = c :: t.
Proof. intros H. simpl. now rewrite H. Qed.

Lemma trim_start_idem s : trim_start (trim_start s) = trim_start s.
Proof.
  destruct (trim_start s) as [|c t] eqn:E; [reflexivity|].
  apply trim_start_fixed. eapply trim_start_head; eassumption.
Qed.

Lemma trim_start_snoc s c :
  is_space c = false -> exists s', trim_start (s ++ [c]) = s' ++ [c].
Proof.
  intros H. induction s as [|a s IH]; simpl.
  - rewrite H. now exists [].
  - destruct (is_space a); [exact IH|]. now exists (a :: s).
Qed.

Lemma trim_end_idem s : trim_end (trim_end s) = trim_end s.
Proof. unfold trim_end. now rewrite rev_involutive, trim_start_idem. Qed.

Lemma trim_end_keeps_head c t :
  is_space c = false -> exists t', trim_end (c :: t) = c :: t'.
Proof.
  intros H. unfold trim_end. simpl.
  destruct (trim_start_snoc (rev t) c H) as [s' ->].
  rewrite rev_app_distr. simpl. now eexists.
Qed.

Lemma trim_head s c t : trim s = c :: t -> is_space c = false.
Proof.
  unfold trim. destruct (trim_start s) as [|a u] eqn:E.
  - discriminate.
  - pose proof (trim_start_head _ _ _ E) as Ha.
    destruct (trim_end_keeps_head a u Ha) as [t' ->].
    now intros [= <- _].
Qed.

Lemma trim_idem s : trim (trim s) = trim s.
Proof.
  unfold trim at 1.
  assert (trim_start (trim s) = trim s) as ->.
  { destruct (trim s) as [|c t] eqn:E; [reflexivity|].
    apply trim_start_fixed. eapply trim_head; eassumption. }
  unfold trim. apply trim_end_idem.
Qed.

(** ** Matches *)

Lemma search_None r b s : search r (b ++ s) = None -> match_here r s = None.
Proof.
  induction b as [|c b IH]; simpl.
  - destruct s; simpl; destruct (match_here r _); try discriminate; reflexivity.
  - destruct (match_here r (c :: b ++ s)); [discriminate|].
    destruct (search r (b ++ s)); [discriminate|]. intros _. now apply IH.
Qed.

Lemma search_Some r s b h :
  search r s = Some (b, h) -> exists s', s = b ++ s' /\ match_here r s' = Some h.
Proof.
  revert b. induction s as [|c s IH]; intros b; simpl.
  - destruct (match_here r []) eqn:E; [|discriminate].
    intros [= <- <-]. now exists [].
  - destruct (match_here r (c :: s)) eqn:E.
    + intros [= <- <-]. now exists (c :: s).
    + destruct (search r s) as [[b' h']|]; [|discriminate].
      simpl. intros [= <- <-].
      destruct (IH b' eq_refl) as (s' & -> & Hm). now exists s'.
Qed.

Lemma replace_first_by_group_None r s :
  search r s = None -> replace_first_by_group r s = s.
Proof. unfold replace_first_by_group. now intros ->. Qed.

Lemma match_here_lit a r s :
  match_here (lit a :: r) s =
  match s with
  | c :: s' => if ch a =? c then consume (lit a) c <$> match_here r s' else None
  | [] => None
  end.
Proof. reflexivity. Qed.

(** A literal prefix of a pattern is a prefix of the text of a match. *)
Lemma match_here_lits p r s :
  match_here (lits p ++ r) s <> None ->
  exists x, s = js p ++ x /\ match_here r x <> None.
Proof.
  revert s. induction p as [|a p IH]; intros s.
  - intros H. now exists s.
  - change (lits (String a p) ++ r) with (lit a :: lits p ++ r).
    rewrite match_here_lit.
    destruct s as [|c s]; [congruence|].
    destruct (ch a =? c) eqn:E; [|congruence].
    apply N.eqb_eq in E. subst c.
    destruct (match_here (lits p ++ r) s) eqn:M; [|simpl; congruence].
    intros _. destruct (IH s) as (x & -> & Hx); [congruence|].
    now exists x.
Qed.

Lemma match_here_lits_intro p r x :
  match_here r x <> None -> match_here (lits p ++ r) (js p ++ x) <> None.
Proof.
  intros H. induction p as [|a p IH]; [exact H|].
  change (lits (String a p) ++ r) with (lit a :: lits p ++ r).
  change (js (String a p) ++ x) with (ch a :: js p ++ x).
  rewrite match_here_lit, N.eqb_refl.
  destruct (match_here (lits p ++ r) (js p ++ x)); simpl; congruence.
Qed.

(** A lazy star over every character lets the rest of the pattern match at
    any later position. *)
Lemma lazy_any_intro cap r b x :
  match_here r x <> None ->
  match_here (Item any_char Lazy cap :: r) (b ++ x) <> None.
Proof.
  intros H. induction b as [|c b IH]; simpl.
  - destruct x; simpl; destruct (match_here r _); congruence.
  - destruct (match_here r (c :: b ++ x)); [congruence|].
    simpl in IH.
    match goal with |- context [?f (b ++ x)] => destruct (f (b ++ x)) end;
      simpl; congruence.
Qed.

Lemma lazy_elim it r s :
  quant it = Lazy ->
  match_here (it :: r) s <> None ->
  exists b x, s = b ++ x /\ match_here r x <> None.
Proof.
  intros Q. simpl. rewrite Q.
  induction s as [|c s IH]; simpl.
  - destruct (match_here r []) eqn:E; [|congruence].
    intros _. exists [], []. split; [reflexivity|congruence].
  - destruct (match_here r (c :: s)) eqn:E.
    + intros _. exists [], (c :: s). split; [reflexivity|congruence].
    + destruct (accepts it c); [|congruence].
      match goal with |- context [?f s] => destruct (f s) eqn:F end;
        simpl; [|congruence].
      intros _. destruct IH as (b & x & -> & Hx); [congruence|].
      now exists (c :: b), x.
Qed.

Lemma greedy_elim it r s :
  quant it = Greedy ->
  match_here (it :: r) s <> None ->
  exists b x, s = b ++ x /\ match_here r x <> None.
Proof.
  intros Q. simpl. rewrite Q.
  induction s as [|c s IH]; simpl.
  - intros H. now exists [], [].
  - destruct (accepts it c).
    + match goal with |- context [?f s] => destruct (f s) eqn:F end.
      * intros _. destruct IH as (b & x & -> & Hx); [congruence|].
        now exists (c :: b), x.
      * intros H. now exists [], (c :: s).
    + intros H. now exists [], (c :: s).
Qed.

(** Where the first pattern matches, so does the second. *)
Lemma json_fence_plain_fence s :
  match_here json_fence s <> None -> match_here plain_fence s <> None.
Proof.
  unfold json_fence, plain_fence. intros H.
  apply match_here_lits in H as (x & -> & H).
  apply greedy_elim in H as (b1 & x1 & -> & H); [|reflexivity].
  apply lazy_elim in H as (b2 & x2 & -> & H); [|reflexivity].
  change (js "```json") with (js "```" ++ js "json").
  rewrite <- app_assoc. apply match_here_lits_intro.
  rewrite !app_assoc. apply lazy_any_intro. exact H.
Qed.

Lemma no_plain_fence_no_json_fence s :
  search plain_fence s = None -> search json_fence s = None.
Proof.
  intros H. destruct (search json_fence s) as [[b h]|] eqn:E; [|reflexivity].
  apply search_Some in E as (s' & -> & M).
  apply search_None in H.
  destruct (json_fence_plain_fence s'); congruence.
Qed.

Lemma normalize_idempotent_without_fence raw :
  search plain_fence (normalize raw) = None ->
  normalize (normalize raw) = normalize raw.
Proof.
  intros H. unfold normalize at 1.
  rewrite (replace_first_by_group_None json_fence)
    by auto using no_plain_fence_no_json_fence.
  rewrite (replace_first_by_group_None plain_fence) by assumption.
  unfold normalize. apply trim_idem.
Qed.

Lemma match_here_shape r s h :
  match_here r s = Some h ->
  s = whole h ++ after h /\ (length (group1 h) + fixed r <= length (whole h))%nat.
Proof.
  revert s h. induction r as [|it r IH]; intros s h.
  - simpl. intros [= <-]. simpl. split; [reflexivity|lia].
  - simpl. destruct (quant it) eqn:Q.
    + destruct s as [|c s]; [discriminate|].
      destruct (accepts it c); [|discriminate].
      destruct (match_here r s) as [h0|] eqn:M; [|discriminate].
      simpl. intros [= <-]. destruct (IH _ _ M) as [-> L].
      unfold consume; simpl. split; [reflexivity|].
      destruct (captured it); simpl; lia.
    + revert h. induction s as [|c s IHs]; intros h.
      * intros M. destruct (IH _ _ M) as [E L]. split; [exact E|].
        destruct (captured it); lia.
      * destruct (accepts it c).
        -- match goal with |- context [?f s] => destruct (f s) as [h0|] eqn:F end.
           ++ intros [= <-]. destruct (IHs _ eq_refl) as [E L].
              unfold consume; simpl. split; [now rewrite E at 1|].
              destruct (captured it); simpl; lia.
           ++ intros M. destruct (IH _ _ M) as [E L]. split; [exact E|].
              destruct (captured it); lia.
        -- intros M. destruct (IH _ _ M) as [E L]. split; [exact E|].
           destruct (captured it); lia.
    + revert h. induction s as [|c s IHs]; intros h.
      * destruct (match_here r []) as [h0|] eqn:M; [|discriminate].
        intros [= <-]. destruct (IH _ _ M) as [E L]. split; [exact E|].
        destruct (captured it); lia.
      * destruct (match_here r (c :: s)) as [h0|] eqn:M.
        -- intros [= <-]. destruct (IH _ _ M) as [E L]. split; [exact E|].
           destruct (captured it); lia.
        -- destruct (accepts it c); [|discriminate].
           match goal with |- context [?f s] => destruct (f s) as [h0|] eqn:F end;
             [|discriminate].
           simpl. intros [= <-]. destruct (IHs _ eq_refl) as [E L].
           unfold consume; simpl. split; [now rewrite E at 1|].
           destruct (captured it); simpl; lia.
Qed.

Lemma replace_first_by_group_length r s :
  (length (replace_first_by_group r s) <= length s)%nat.
Proof.
  unfold replace_first_by_group.
  destruct (search r s) as [[b h]|] eqn:E; [|lia].
  apply search_Some in E as (s' & -> & M).
  apply match_here_shape in M as [-> L].
  rewrite !length_app. lia.
Qed.

Lemma replace_first_by_group_shorter r s :
  search r s <> None -> (0 < fixed r)%nat ->
  (length (replace_first_by_group r s) < length s)%nat.
Proof.
  unfold replace_first_by_group.
  destruct (search r s) as [[b h]|] eqn:E; [|congruence].
  intros _ F. apply search_Some in E as (s' & -> & M).
  apply match_here_shape in M as [-> L].
  rewrite !length_app. lia.
Qed.

Lemma trim_start_length s : (length (trim_start s) <= length s)%nat.
Proof.
  induction s as [|c s IH]; simpl; [lia|].
  destruct (is_space c); simpl; lia.
Qed.

Lemma trim_length s : (length (trim s) <= length s)%nat.
Proof.
  unfold trim, trim_end. rewrite length_rev.
  etransitivity; [apply trim_start_length|].
  rewrite length_rev. apply trim_start_length.
Qed.

Lemma normalize_shorter s :
  search plain_fence s <> None -> (length (normalize s) < length s)%nat.
Proof.
  intros H. unfold normalize.
  eapply Nat.le_lt_trans; [apply trim_length|].
  destruct (search json_fence s) as [p|] eqn:J.
  - eapply Nat.le_lt_trans; [apply replace_first_by_group_length|].
    apply replace_first_by_group_shorter; [congruence|].
    vm_compute. lia.
  - rewrite (replace_first_by_group_None json_fence s J).
    apply replace_first_by_group_shorter; [exact H|]. vm_compute. lia.
Qed.

(** C7 (as amended): normalizing twice gives the same text as normalizing
    once exactly when no fenced block is left after the first pass. *)
Theorem normalize_idempotent_iff raw :
  normalize (normalize raw) = normalize raw <->
  search plain_fence (normalize raw) = None.
Proof.
  split.
  - intros E. destruct (search plain_fence (normalize raw)) eqn:S; [|reflexivity].
    assert (search plain_fence (normalize raw) <> None) as H by congruence.
    apply normalize_shorter in H. rewrite E in H. lia.
  - apply normalize_idempotent_without_fence.
Qed.

(** C7, witness: one fenced block. *)
Lemma normalize_idempotent_witness :
  normalize (normalize (js "```json [1, 2] ```")) = normalize (js "```json [1, 2] ```").
Proof. apply normalize_idempotent_iff. vm_compute. reflexivity. Defined.

(** C7, counterexample: of two fenced blocks, one pass removes the first
    and a second pass removes the other. *)
Lemma normalize_not_idempotent :
  normalize (js "```a``` ```b```") = js "a ```b```" /\
  normalize (normalize (js "```a``` ```b```")) = js "a b" /\
  normalize (normalize (js "```a``` ```b```")) <> normalize (js "```a``` ```b```").
Proof. vm_compute. repeat split; try reflexivity. discriminate. Qed.

(** * Termination of the scans and of the parser *)

Section Fuel.
Local Open Scope nat_scope.

(** ** The scans stop by themselves *)

Lemma search_after_shorter r s b h :
  0 < fixed r -> search r s = Some (b, h) -> length (after h) < length s.
Proof.
  intros F E. apply search_Some in E as (s' & -> & M).
  apply match_here_shape in M as [-> L]. rewrite !length_app. lia.
Qed.

Lemma search_nil r : 0 < fixed r -> search r [] = None.
Proof.
  intros F. destruct (search r []) as [[b h]|] eqn:E; [|reflexivity].
  apply search_after_shorter in E; [simpl in E; lia|exact F].
Qed.

Lemma replace_all_loop_fuel r rep :
  0 < fixed r -> forall n m s,
  length s <= n -> length s <= m ->
  replace_all_loop n r rep s = replace_all_loop m r rep s.
Proof.
  intros F. induction n as [|n IH]; intros m s Hn Hm.
  - destruct s; [|simpl in Hn; lia].
    destruct m; cbn [replace_all_loop]; [reflexivity|]. now rewrite search_nil.
  - destruct m as [|m].
    + destruct s; [|simpl in Hm; lia]. cbn [replace_all_loop]. now rewrite search_nil.
    + cbn [replace_all_loop]. destruct (search r s) as [[b h]|] eqn:E; [|reflexivity].
      apply search_after_shorter in E; [|exact F].
      simpl in Hn, Hm. rewrite (IH m) by lia. reflexivity.
Qed.

Lemma match_all_loop_fuel r :
  0 < fixed r -> forall n m s,
  length s <= n -> length s <= m ->
  match_all_loop n r s = match_all_loop m r s.
Proof.
  intros F. induction n as [|n IH]; intros m s Hn Hm.
  - destruct s; [|simpl in Hn; lia].
    destruct m; cbn [match_all_loop]; [reflexivity|]. now rewrite search_nil.
  - destruct m as [|m].
    + destruct s; [|simpl in Hm; lia]. cbn [match_all_loop]. now rewrite search_nil.
    + cbn [match_all_loop]. destruct (search r s) as [[b h]|] eqn:E; [|reflexivity].
      apply search_after_shorter in E; [|exact F].
      simpl in Hn, Hm. rewrite (IH m) by lia. reflexivity.
Qed.

(** More rounds than [length s] change nothing: the scans of [replace_all]
    and [match_all] have ended by then. *)
Lemma replace_all_fuel n s :
  length s <= n ->
  replace_all_loop n adjacent_objects (js "},{") s
  = replace_all adjacent_objects (js "},{") s.
Proof.
  intros H. unfold replace_all. apply replace_all_loop_fuel; [|exact H|lia].
  vm_compute. lia.
Qed.

Lemma match_all_fuel n s :
  length s <= n -> match_all_loop n flat_object s = match_all flat_object s.
Proof.
  intros H. unfold match_all. apply match_all_loop_fuel; [|exact H|lia].
  vm_compute. lia.
Qed.

(** ** The parser consumes its input *)

Lemma skip_ws_length s : length (skip_ws s) <= length s.
Proof.
  induction s as [|c s IH]; simpl; [lia|].
  destruct (is_json_ws c); simpl; lia.
Qed.

Lemma span_digits_length s : length (span_digits s).2 <= length s.
Proof.
  induction s as [|c s IH]; simpl; [lia|].
  destruct (is_digit c); simpl; [|lia].
  destruct (span_digits s); simpl in *. lia.
Qed.

Lemma strip_prefix_length p s r :
  strip_prefix p s = Some r -> length s = length p + length r.
Proof.
  revert s. induction p as [|a p IH]; intros s; simpl.
  - now intros [= ->].
  - destruct s as [|c s]; [discriminate|].
    destruct (N.eqb a c); [|discriminate].
    intros H. apply IH in H. simpl. lia.
Qed.

Lemma parse_string_length s k r :
  parse_string s = Some (k, r) -> length r < length s.
Proof.
  remember (length s) as n eqn:Hn. revert s k r Hn.
  induction n as [n IH] using lt_wf_ind. intros s k r ->.
  destruct s as [|c s]; [discriminate|]. simpl.
  destruct (N.eqb c dquote).
  { intros [= _ <-]. lia. }
  destruct (N.eqb c backslash).
  - destruct s as [|e s]; [discriminate|].
    destruct (N.eqb e (ch "u")).
    + destruct s as [|h1 [|h2 [|h3 [|h4 s]]]]; try discriminate.
      destruct (hex4 h1 h2 h3 h4); [|discriminate].
      destruct (parse_string s) as [[k' r']|] eqn:P; [|discriminate].
      simpl. intros [= _ <-].
      eapply (IH (length s)) in P; [|simpl; lia|reflexivity]. simpl. lia.
    + destruct (simple_escape e); [|discriminate].
      destruct (parse_string s) as [[k' r']|] eqn:P; [|discriminate].
      simpl. intros [= _ <-].
      eapply (IH (length s)) in P; [|simpl; lia|reflexivity]. simpl. lia.
  - destruct (N.ltb c 32); [discriminate|].
    destruct (parse_string s) as [[k' r']|] eqn:P; [|discriminate].
    simpl. intros [= _ <-].
    eapply (IH (length s)) in P; [|simpl; lia|reflexivity]. lia.
Qed.

Lemma span_digits_rest s ds r : span_digits s = (ds, r) -> length r <= length s.
Proof. intros H. pose proof (span_digits_length s) as L. now rewrite H in L. Qed.

Lemma span_digits_cons c s ds r :
  is_digit c = true -> span_digits (c :: s) = (ds, r) -> length r <= length s.
Proof.
  intros D. simpl. rewrite D. destruct (span_digits s) as [ds' r'] eqn:E.
  intros [= _ <-]. eapply span_digits_rest; eassumption.
Qed.

Lemma parse_number_length s q r :
  parse_number s = Some (q, r) -> length r < length s.
Proof.
  unfold parse_number. intros H.
  repeat (case_match; simplify_eq);
    repeat match goal with
           | D : is_digit ?c = true, H : span_digits (?c :: _) = (_, _) |- _ =>
             apply (span_digits_cons _ _ _ _ D) in H
           | H : span_digits _ = (_, _) |- _ => apply span_digits_rest in H
           end;
    simpl in *; lia.
Qed.

Lemma parse_value_S fuel s next :
  parse_value (S fuel) s next =
  match s with
  | [] => SyntaxError
  | c :: r =>
    if N.eqb c (ch "{") then
      match skip_ws r with
      | c' :: r' =>
        if N.eqb c' (ch "}") then Parsed (VObj next []) r' (next + 1)%N
        else pbind (parse_members fuel (c' :: r') (next + 1)%N)
               (fun ps rest n => Parsed (VObj next ps) rest n)
      | [] => SyntaxError
      end
    else if N.eqb c (ch "[") then
      match skip_ws r with
      | c' :: r' =>
        if N.eqb c' (ch "]") then Parsed (VArr next []) r' (next + 1)%N
        else pbind (parse_elements fuel (c' :: r') (next + 1)%N)
               (fun vs rest n => Parsed (VArr next vs) rest n)
      | [] => SyntaxError
      end
    else if N.eqb c dquote then
      of_option ((fun p => (VStr (fst p), snd p)) <$> parse_string r) next
    else
      match strip_prefix (js "true") s with
      | Some rest => Parsed (VBool true) rest next
      | None =>
        match strip_prefix (js "false") s with
        | Some rest => Parsed (VBool false) rest next
        | None =>
          match strip_prefix (js "null") s with
          | Some rest => Parsed VNull rest next
          | None =>
            of_option ((fun p => (number (fst p), snd p)) <$> parse_number s)
                      next
          end
        end
      end
  end.
Proof. reflexivity. Qed.

Lemma parse_elements_S fuel s next :
  parse_elements (S fuel) s next =
  pbind (parse_value fuel s next) (fun v rest n =>
    match skip_ws rest with
    | c :: r =>
      if N.eqb c (ch ",") then
        pbind (parse_elements fuel (skip_ws r) n)
          (fun vs rest' n' => Parsed (v :: vs) rest' n')
      else if N.eqb c (ch "]") then Parsed [v] r n
      else SyntaxError
    | [] => SyntaxError
    end).
Proof. reflexivity. Qed.

Lemma parse_members_S fuel s next :
  parse_members (S fuel) s next =
  match s with
  | c :: r =>
    if N.eqb c dquote then
      match parse_string r with
      | Some (k, r1) =>
        match skip_ws r1 with
        | c1 :: r2 =>
          if N.eqb c1 (ch ":") then
            pbind (parse_value fuel (skip_ws r2) next) (fun v rest n =>
              match skip_ws rest with
              | c3 :: r4 =>
                if N.eqb c3 (ch ",") then
                  pbind (parse_members fuel (skip_ws r4) n)
                    (fun ps rest' n' => Parsed ((k, v) :: ps) rest' n')
                else if N.eqb c3 (ch "}") then Parsed [(k, v)] r4 n
                else SyntaxError
              | [] => SyntaxError
              end)
          else SyntaxError
        | [] => SyntaxError
        end
      | None => SyntaxError
      end
    else SyntaxError
  | [] => SyntaxError
  end.
Proof. reflexivity. Qed.

Ltac skip_ws_facts :=
  repeat match goal with
         | H : skip_ws ?x = _ |- _ =>
           let L := fresh "L" in
           pose proof (skip_ws_length x) as L; rewrite H in L; clear H
         end;
  repeat match goal with
         | H : context [length (skip_ws ?x)] |- _ =>
           lazymatch goal with
           | _ : length (skip_ws x) <= length x |- _ => fail
           | _ => pose proof (skip_ws_length x)
           end
         end.

Lemma parse_length fuel :
  (forall s n v r n', parse_value fuel s n = Parsed v r n' -> length r < length s) /\
  (forall s n vs r n', parse_elements fuel s n = Parsed vs r n' -> length r < length s) /\
  (forall s n ps r n', parse_members fuel s n = Parsed ps r n' -> length r < length s).
Proof.
  induction fuel as [|fuel (IHv & IHe & IHm)]; [repeat split; discriminate|].
  repeat split.
  - intros s n v r n'. rewrite parse_value_S.
    destruct s as [|c s]; [discriminate|].
    destruct (N.eqb c (ch "{")).
    { destruct (skip_ws s) as [|c' r'] eqn:W; [discriminate|].
      destruct (N.eqb c' (ch "}")).
      - intros [= _ <- _]. skip_ws_facts. simpl in *. lia.
      - destruct (parse_members fuel (c' :: r') (n + 1)) eqn:P; try discriminate.
        simpl. intros [= _ <- _]. apply IHm in P. skip_ws_facts. simpl in *. lia. }
    destruct (N.eqb c (ch "[")).
    { destruct (skip_ws s) as [|c' r'] eqn:W; [discriminate|].
      destruct (N.eqb c' (ch "]")).
      - intros [= _ <- _]. skip_ws_facts. simpl in *. lia.
      - destruct (parse_elements fuel (c' :: r') (n + 1)) eqn:P; try discriminate.
        simpl. intros [= _ <- _]. apply IHe in P. skip_ws_facts. simpl in *. lia. }
    destruct (N.eqb c dquote).
    { destruct (parse_string s) as [[k r1]|] eqn:P; [|discriminate].
      simpl. intros [= _ <- _]. apply parse_string_length in P. simpl. lia. }
    destruct (strip_prefix (js "true") (c :: s)) eqn:T.
    { intros [= _ <- _]. apply strip_prefix_length in T. rewrite T. simpl. lia. }
    destruct (strip_prefix (js "false") (c :: s)) eqn:F.
    { intros [= _ <- _]. apply strip_prefix_length in F. rewrite F. simpl. lia. }
    destruct (strip_prefix (js "null") (c :: s)) eqn:U.
    { intros [= _ <- _]. apply strip_prefix_length in U. rewrite U. simpl. lia. }
    destruct (parse_number (c :: s)) as [[q r1]|] eqn:P; [|discriminate].
    simpl. intros [= _ <- _]. now apply parse_number_length in P.
  - intros s n vs r n'. rewrite parse_elements_S.
    destruct (parse_value fuel s n) as [v r0 n0| |] eqn:P; try discriminate.
    apply IHv in P. simpl.
    destruct (skip_ws r0) as [|c r1] eqn:W; [discriminate|].
    destruct (N.eqb c (ch ",")).
    + destruct (parse_elements fuel (skip_ws r1) n0) eqn:P2; try discriminate.
      simpl. intros [= _ <- _]. apply IHe in P2. skip_ws_facts. simpl in *. lia.
    + destruct (N.eqb c (ch "]")); [|discriminate].
      intros [= _ <- _]. skip_ws_facts. simpl in *. lia.
  - intros s n ps r n'. rewrite parse_members_S.
    destruct s as [|c s]; [discriminate|].
    destruct (N.eqb c dquote); [|discriminate].
    destruct (parse_string s) as [[k r1]|] eqn:P; [|discriminate].
    apply parse_string_length in P.
    destruct (skip_ws r1) as [|c1 r2] eqn:W; [discriminate|].
    destruct (N.eqb c1 (ch ":")); [|discriminate].
    destruct (parse_value fuel (skip_ws r2) n) as [v r3 n3| |] eqn:P2;
      try discriminate.
    apply IHv in P2. simpl.
    destruct (skip_ws r3) as [|c3 r4] eqn:W3; [discriminate|].
    destruct (N.eqb c3 (ch ",")).
    + destruct (parse_members fuel (skip_ws r4) n3) eqn:P3; try discriminate.
      simpl. intros [= _ <- _]. apply IHm in P3. skip_ws_facts. simpl in *. lia.
    + destruct (N.eqb c3 (ch "}")); [|discriminate].
      intros [= _ <- _]. skip_ws_facts. simpl in *. lia.
Qed.

Lemma of_option_fuel {A} (o : option (A * list N)) n : of_option o n <> OutOfFuel.
Proof. destruct o as [[a r]|]; discriminate. Qed.

(** ** The fuel of [JSON_parse] is enough *)

Lemma parse_fuel fuel :
  (forall s n, 2 * length s + 1 <= fuel -> parse_value fuel s n <> OutOfFuel) /\
  (forall s n, 2 * length s + 2 <= fuel -> parse_elements fuel s n <> OutOfFuel) /\
  (forall s n, 2 * length s + 2 <= fuel -> parse_members fuel s n <> OutOfFuel).
Proof.
  induction fuel as [|fuel (IHv & IHe & IHm)]; [repeat split; intros; lia|].
  destruct (parse_length fuel) as (Lv & Le & Lm).
  repeat split.
  - intros s n F. rewrite parse_value_S.
    destruct s as [|c s]; [discriminate|]. simpl in F.
    destruct (N.eqb c (ch "{")).
    { destruct (skip_ws s) as [|c' r'] eqn:W; [discriminate|].
      destruct (N.eqb c' (ch "}")); [discriminate|].
      destruct (parse_members fuel (c' :: r') (n + 1)) eqn:P; try discriminate.
      exfalso. revert P. apply IHm. skip_ws_facts. lia. }
    destruct (N.eqb c (ch "[")).
    { destruct (skip_ws s) as [|c' r'] eqn:W; [discriminate|].
      destruct (N.eqb c' (ch "]")); [discriminate|].
      destruct (parse_elements fuel (c' :: r') (n + 1)) eqn:P; try discriminate.
      exfalso. revert P. apply IHe. skip_ws_facts. lia. }
    destruct (N.eqb c dquote); [apply of_option_fuel|].
    repeat (destruct (strip_prefix _ _); [discriminate|]).
    apply of_option_fuel.
  - intros s n F. rewrite parse_elements_S.
    destruct (parse_value fuel s n) as [v r0 n0| |] eqn:P; try discriminate.
    + apply Lv in P. simpl.
      destruct (skip_ws r0) as [|c r1] eqn:W; [discriminate|].
      destruct (N.eqb c (ch ",")); [|destruct (N.eqb c (ch "]")); discriminate].
      destruct (parse_elements fuel (skip_ws r1) n0) eqn:P2; try discriminate.
      exfalso. revert P2. apply IHe.
      pose proof (skip_ws_length r1). skip_ws_facts. simpl in *. lia.
    + exfalso. revert P. apply IHv. lia.
  - intros s n F. rewrite parse_members_S.
    destruct s as [|c s]; [discriminate|]. simpl in F.
    destruct (N.eqb c dquote); [|discriminate].
    destruct (parse_string s) as [[k r1]|] eqn:P; [|discriminate].
    apply parse_string_length in P.
    destruct (skip_ws r1) as [|c1 r2] eqn:W; [discriminate|].
    destruct (N.eqb c1 (ch ":")); [|discriminate].
    pose proof (skip_ws_length r2) as W2.
    destruct (parse_value fuel (skip_ws r2) n) as [v r3 n3| |] eqn:P2;
      try discriminate.
    + apply Lv in P2. simpl.
      destruct (skip_ws r3) as [|c3 r4] eqn:W3; [discriminate|].
      destruct (N.eqb c3 (ch ",")); [|destruct (N.eqb c3 (ch "}")); discriminate].
      destruct (parse_members fuel (skip_ws r4) n3) eqn:P3; try discriminate.
      exfalso. revert P3. apply IHm.
      pose proof (skip_ws_length r4). skip_ws_facts. simpl in *. lia.
    + exfalso. revert P2. apply IHv. skip_ws_facts. simpl in *. lia.
Qed.

(** [JSON_parse] never runs out of fuel: [None] is a syntax error. *)
Lemma JSON_parse_fuel text : parse_top (json_fuel text) text <> OutOfFuel.
Proof.
  unfold parse_top, json_fuel.
  destruct (parse_value _ (skip_ws text) 0%N) as [v r n| |] eqn:P.
  - simpl. destruct (skip_ws r); discriminate.
  - discriminate.
  - exfalso. revert P. apply parse_fuel.
    pose proof (skip_ws_length text). lia.
Qed.

(** More fuel does not change a result. *)
Lemma parse_more_fuel fuel :
  (forall s n, parse_value fuel s n <> OutOfFuel ->
               parse_value (S fuel) s n = parse_value fuel s n) /\
  (forall s n, parse_elements fuel s n <> OutOfFuel ->
               parse_elements (S fuel) s n = parse_elements fuel s n) /\
  (forall s n, parse_members fuel s n <> OutOfFuel ->
               parse_members (S fuel) s n = parse_members fuel s n).
Proof.
  induction fuel as [|fuel (IHv & IHe & IHm)];
    [repeat split; intros s n H; exfalso; apply H; reflexivity|].
  repeat split.
  - intros s n. rewrite (parse_value_S (S fuel)), (parse_value_S fuel).
    destruct s as [|c s]; [reflexivity|].
    destruct (N.eqb c (ch "{")).
    { destruct (skip_ws s) as [|c' r']; [reflexivity|].
      destruct (N.eqb c' (ch "}")); [reflexivity|].
      intros H. rewrite IHm; [reflexivity|]. intros E. now rewrite E in H. }
    destruct (N.eqb c (ch "[")).
    { destruct (skip_ws s) as [|c' r']; [reflexivity|].
      destruct (N.eqb c' (ch "]")); [reflexivity|].
      intros H. rewrite IHe; [reflexivity|]. intros E. now rewrite E in H. }
    reflexivity.
  - intros s n. rewrite (parse_elements_S (S fuel)), (parse_elements_S fuel).
    intros H. rewrite IHv by (intros E; now rewrite E in H).
    destruct (parse_value fuel s n) as [v r0 n0| |]; try reflexivity.
    simpl in *. destruct (skip_ws r0) as [|c r1]; [reflexivity|].
    destruct (N.eqb c (ch ",")); [|reflexivity].
    rewrite IHe; [reflexivity|]. intros E. now rewrite E in H.
  - intros s n. rewrite (parse_members_S (S fuel)), (parse_members_S fuel).
    destruct s as [|c s]; [reflexivity|].
    destruct (N.eqb c dquote); [|reflexivity].
    destruct (parse_string s) as [[k r1]|]; [|reflexivity].
    destruct (skip_ws r1) as [|c1 r2]; [reflexivity|].
    destruct (N.eqb c1 (ch ":")); [|reflexivity].
    intros H. rewrite IHv by (intros E; now rewrite E in H).
    destruct (parse_value fuel (skip_ws r2) n) as [v r3 n3| |]; try reflexivity.
    simpl in *. destruct (skip_ws r3) as [|c3 r4]; [reflexivity|].
    destruct (N.eqb c3 (ch ",")); [|reflexivity].
    rewrite IHm; [reflexivity|]. intros E. now rewrite E in H.
Qed.

Lemma parse_top_more_fuel text k :
  parse_top (k + json_fuel text) text = parse_top (json_fuel text) text.
Proof.
  induction k as [|k IH]; [reflexivity|]. rewrite <- IH.
  change (S k + json_fuel text) with (S (k + json_fuel text)).
  unfold parse_top.
  destruct (parse_more_fuel (k + json_fuel text)) as (Hv & _).
  rewrite Hv; [reflexivity|]. intros E.
  pose proof (JSON_parse_fuel text) as F. rewrite <- IH in F.
  unfold parse_top in F. rewrite E in F. now apply F.
Qed.

End Fuel.

(** * Properties of the tolerant parse *)

(** ** The parser on arrays *)

Lemma parse_elements_nonempty fuel s next vs rest next' :
  parse_elements fuel s next = Parsed vs rest next' -> vs <> [].
Proof.
  destruct fuel as [|fuel]; [discriminate|]. simpl.
  destruct (parse_value fuel s next) as [v r n| |]; simpl; try discriminate.
  destruct (skip_ws r) as [|c r']; [discriminate|].
  destruct (c =? ch ","); [|destruct (c =? ch "]")]; try discriminate.
  - destruct (parse_elements fuel (skip_ws r') n); simpl; try discriminate.
    now intros [= <- _ _].
  - now intros [= <- _ _].
Qed.

Lemma parse_value_array fuel s next :
  parse_value (S fuel) (ch "[" :: s) next =
  match skip_ws s with
  | c' :: r' =>
    if c' =? ch "]" then Parsed (VArr next []) r' (next + 1)
    else pbind (parse_elements fuel (c' :: r') (next + 1))
           (fun vs rest n => Parsed (VArr next vs) rest n)
  | [] => SyntaxError
  end.
Proof. reflexivity. Qed.

Lemma JSON_parse_bracket s :
  JSON_parse (ch "[" :: s) =
  match parse_value (json_fuel (ch "[" :: s)) (ch "[" :: s) 0 with
  | Parsed v rest _ => match skip_ws rest with [] => Some v | _ => None end
  | _ => None
  end.
Proof.
  unfold JSON_parse, parse_top.
  change (skip_ws (ch "[" :: s)) with (ch "[" :: s).
  destruct (parse_value _ _ _) as [v rest n| |]; simpl; try reflexivity.
  now destruct (skip_ws rest).
Qed.

(** An array literal denotes the empty array only if a closing bracket is
    the first character after the opening one that is not white space, and
    only white space follows. *)
Lemma JSON_parse_empty_array s ref :
  JSON_parse (ch "[" :: s) = Some (VArr ref []) ->
  exists s', skip_ws s = ch "]" :: s' /\ skip_ws s' = [].
Proof.
  rewrite JSON_parse_bracket. unfold json_fuel.
  replace (2 * length (ch "[" :: s) + 1)%nat
    with (S (2 * length s + 2))%nat by (simpl; lia).
  rewrite parse_value_array.
  destruct (skip_ws s) as [|c' r']; [discriminate|].
  destruct (c' =? ch "]") eqn:E.
  - apply N.eqb_eq in E. subst c'.
    destruct (skip_ws r') eqn:W; [|discriminate].
    intros _. now exists r'.
  - destruct (parse_elements _ _ _) as [vs rest n| |] eqn:P; simpl; try discriminate.
    apply parse_elements_nonempty in P.
    destruct (skip_ws rest); [|discriminate].
    intros [= _ ->]. contradiction.
Qed.

Lemma is_json_ws_is_space c : is_json_ws c = true -> is_space c = true.
Proof.
  unfold is_json_ws, is_space. intros H.
  repeat match type of H with
         | (_ || _) = true => apply orb_prop in H as [H|H]
         end; apply N.eqb_eq in H; subst c; reflexivity.
Qed.

Lemma skip_ws_fixed c s : is_space c = false -> skip_ws (c :: s) = c :: s.
Proof.
  intros H. simpl. destruct (is_json_ws c) eqn:E; [|reflexivity].
  apply is_json_ws_is_space in E. congruence.
Qed.

Lemma skip_ws_snoc s c : is_json_ws c = false -> skip_ws (s ++ [c]) <> [].
Proof.
  intros H. induction s as [|a s IH]; simpl.
  - now rewrite H.
  - now destruct (is_json_ws a).
Qed.

(** ** The repair keeps the first character *)

Lemma search_head r c s b h :
  search r (c :: s) = Some (b, h) ->
  (b = [] /\ match_here r (c :: s) = Some h) \/ exists b', b = c :: b'.
Proof.
  simpl. destruct (match_here r (c :: s)) eqn:E.
  - intros [= <- <-]. now left.
  - destruct (search r s) as [[b' h']|]; [|discriminate].
    simpl. intros [= <- <-]. right. now eexists.
Qed.

Lemma replace_all_adjacent_head c s :
  exists t, replace_all adjacent_objects (js "},{") (c :: s) = c :: t.
Proof.
  unfold replace_all. simpl length. cbn [replace_all_loop].
  destruct (search adjacent_objects (c :: s)) as [[b h]|] eqn:E.
  - apply search_head in E as [[-> M]|[b' ->]].
    + unfold adjacent_objects in M. rewrite match_here_lit in M.
      destruct (ch "}" =? c) eqn:C; [|discriminate].
      apply N.eqb_eq in C. subst c. simpl. now eexists.
    + simpl. now eexists.
  - now eexists.
Qed.

(** ** The extracted objects start with a brace *)

Lemma flat_object_head s h :
  match_here flat_object s = Some h -> exists w, whole h = ch "{" :: w.
Proof.
  unfold flat_object. rewrite match_here_lit.
  destruct s as [|c s]; [discriminate|].
  destruct (ch "{" =? c) eqn:C; [|discriminate].
  apply N.eqb_eq in C. subst c.
  destruct (match_here _ s); [|discriminate].
  simpl. intros [= <-]. simpl. now eexists.
Qed.

Lemma match_all_flat_object_head s m ms :
  match_all flat_object s = m :: ms -> exists w, m = ch "{" :: w.
Proof.
  unfold match_all. destruct (length s) as [|n]; [discriminate|].
  simpl. destruct (search flat_object s) as [[b h]|] eqn:E; [|discriminate].
  intros [= <- _]. apply search_Some in E as (s' & _ & M).
  eapply flat_object_head; eassumption.
Qed.

Lemma joined_head m ms :
  exists t, join_comma (m :: ms) = m ++ t.
Proof.
  destruct ms as [|m' ms]; simpl.
  - exists []. now rewrite app_nil_r.
  - now eexists.
Qed.

Lemma JSON_parse_joined_nonempty s m ms ref :
  match_all flat_object s = m :: ms ->
  JSON_parse (joined (m :: ms)) <> Some (VArr ref []).
Proof.
  intros H E. apply match_all_flat_object_head in H as [w ->].
  unfold joined in E. destruct (joined_head (ch "{" :: w) ms) as [t Ht].
  rewrite Ht in E.
  change (js "[" ++ (ch "{" :: w) ++ t ++ js "]")
    with (ch "[" :: ch "{" :: (w ++ t ++ js "]")) in E.
  apply JSON_parse_empty_array in E as (s' & E & _).
  discriminate E.
Qed.

Lemma JSON_parse_fixedOutput_empty c s ref :
  is_space c = false ->
  JSON_parse (fixedOutput (c :: s)) <> Some (VArr ref []).
Proof.
  intros Hc E. unfold fixedOutput in E.
  destruct (replace_all_adjacent_head c s) as [t Ht]. rewrite Ht in E.
  change (js "[" ++ (c :: t) ++ js "]") with (ch "[" :: c :: (t ++ [ch "]"])) in E.
  apply JSON_parse_empty_array in E as (s' & E & W).
  rewrite skip_ws_fixed in E by exact Hc.
  injection E as -> <-.
  now apply skip_ws_snoc in W.
Qed.

Lemma ensure_array_empty v : ensure_array v = [] -> exists ref, v = VArr ref [].
Proof. destruct v; simpl; try discriminate. intros ->. now eexists. Qed.

(** C3 (as amended): on a normalized text, the tolerant parse yields an
    empty sequence of candidates exactly when the text is empty (the repair
    stage then parses [[]]) or parses directly to the empty array; in every
    other case of success the sequence is not empty. *)
Theorem candidates_empty_iff raw :
  candidates (normalize raw) = Some [] <->
  normalize raw = [] \/ exists ref, JSON_parse (normalize raw) = Some (VArr ref []).
Proof.
  split.
  - intros C. unfold candidates, parse_generated in C.
    destruct (JSON_parse (normalize raw)) as [v|] eqn:P1.
    + simpl in C. injection C as C. apply ensure_array_empty in C as [ref ->].
      right. now exists ref.
    + destruct (normalize raw) as [|c s] eqn:N; [now left|]. exfalso.
      pose proof (trim_head _ _ _ N) as Hc.
      destruct (JSON_parse (fixedOutput (c :: s))) as [v|] eqn:P2.
      * simpl in C. injection C as C. apply ensure_array_empty in C as [ref ->].
        now apply JSON_parse_fixedOutput_empty in P2.
      * destruct (match_all flat_object (c :: s)) as [|m ms] eqn:M; [discriminate|].
        simpl in C. destruct (JSON_parse (joined (m :: ms))) as [v|] eqn:P3;
          [|discriminate].
        injection C as C. apply ensure_array_empty in C as [ref ->].
        eapply JSON_parse_joined_nonempty; eassumption.
  - intros [E|[ref E]]; unfold candidates, parse_generated; rewrite E.
    + reflexivity.
    + reflexivity.
Qed.

(** C3, counterexample: the normalized text [[]] parses at the first stage
    to an empty sequence of candidates. *)
Lemma empty_array_no_candidates :
  normalize (js "[]") = js "[]" /\
  (parse_generated (js "[]")).1 = [Direct] /\
  candidates (js "[]") = Some [].
Proof. vm_compute. repeat split; reflexivity. Qed.

(** ** The order of the stages *)

(** C5: the tolerant parse is the first success of the three stages tried
    in the order direct, repair, extraction, each at most once; when the
    direct parse succeeds it is the only stage entered and its value is the
    result. *)
Theorem parse_generated_order text :
  parse_generated text = first_success [Direct; Repair; Extract] text /\
  (parse_generated text).1
    = match JSON_parse text with
      | Some _ => [Direct]
      | None =>
        match JSON_parse (fixedOutput text) with
        | Some _ => [Direct; Repair]
        | None => [Direct; Repair; Extract]
        end
      end /\
  match JSON_parse text with
  | Some v => (parse_generated text).2 = Some v
  | None => True
  end.
Proof.
  unfold parse_generated, first_success, run_stage.
  destruct (JSON_parse text) as [v|]; [now repeat split|].
  destruct (JSON_parse (fixedOutput text)) as [v|]; [now repeat split|].
  destruct (match_all flat_object text) as [|m ms]; [now repeat split|].
  destruct (JSON_parse (joined (m :: ms))); now repeat split.
Qed.

(** C6: the two concatenated object literals do not parse directly; the
    repair inserts the comma and the brackets, and the repaired text parses
    to exactly two candidates. *)
Theorem concatenated_objects_repaired :
  JSON_parse two_objects = None /\
  fixedOutput two_objects =
    jsq "[{'question_text':'A','options':['a','b','c','d'],'correct_answer':'a'},{'question_text':'B','options':['e','f','g','h'],'correct_answer':'e'}]" /\
  (parse_generated two_objects).1 = [Direct; Repair] /\
  candidates two_objects =
    Some [VObj 1 [(js "question_text", VStr (js "A"));
                  (js "options", VArr 2 [VStr (js "a"); VStr (js "b");
                                         VStr (js "c"); VStr (js "d")]);
                  (js "correct_answer", VStr (js "a"))];
          VObj 3 [(js "question_text", VStr (js "B"));
                  (js "options", VArr 4 [VStr (js "e"); VStr (js "f");
                                         VStr (js "g"); VStr (js "h")]);
                  (js "correct_answer", VStr (js "e"))]].
Proof. vm_compute. repeat split; reflexivity. Qed.

(** * Question documents *)

Lemma same_value_zero_refl v : same_value_zero v v = true.
Proof.
  destruct v; simpl; auto using N.eqb_refl.
  - now destruct b.
  - apply Qeq_bool_iff. reflexivity.
  - now destruct negative.
  - now apply bool_decide_eq_true.
Qed.

Lemma includes_head x l : includes (x :: l) x = true.
Proof. unfold includes. simpl. now rewrite same_value_zero_refl. Qed.

Lemma final_options_length v : (4 <= length (final_options v))%nat.
Proof.
  assert (4 <= length default_options)%nat as D by (vm_compute; lia).
  unfold final_options. destruct v; try exact D.
  destruct (Nat.leb_spec 4 (length elems)); [assumption|exact D].
Qed.

Lemma questionDoc_inv quiz_id cfg q index doc :
  questionDoc quiz_id cfg q index = Some doc ->
  exists q_options answer text points,
    get q "options" = Some q_options /\
    get q "correct_answer" = Some answer /\
    get q "question_text" = Some text /\
    final_points cfg index = Some points /\
    doc = {| Question.quiz_id := quiz_id;
             Question.question_text := text;
             Question.question_type := "MCQ";
             Question.options := final_options q_options;
             Question.correct_answer :=
               final_answer (final_options q_options) answer;
             Question.points := points |}.
Proof.
  unfold questionDoc. intros H.
  destruct (get q "options") as [q_options|]; [|discriminate].
  destruct (get q "correct_answer") as [answer|]; [|discriminate].
  destruct (get q "question_text") as [text|]; [|discriminate].
  destruct (final_points cfg index) as [points|]; [|discriminate].
  simpl in H. injection H as <-. now exists q_options, answer, text, points.
Qed.

Lemma final_answer_included options answer :
  options <> [] -> includes options (final_answer options answer) = true.
Proof.
  intros Hne. unfold final_answer.
  destruct (truthy answer && includes options answer) eqn:E.
  - now apply andb_prop in E as [_ E].
  - destruct options; [contradiction|]. apply includes_head.
Qed.

(** A candidate that passes the filter keeps its options. *)
Lemma final_options_kept q :
  at_least_4_options q = Some true ->
  exists ref q_options,
    get q "options" = Some (VArr ref q_options) /\
    final_options (VArr ref q_options) = q_options.
Proof.
  unfold at_least_4_options.
  destruct (get q "options") as [[| | | | | |ref elems|]|]; try discriminate.
  intros E. assert ((4 <=? length elems)%nat = true) as E' by congruence.
  exists ref, elems. split; [reflexivity|].
  unfold final_options. now rewrite E'.
Qed.

(** C1 (as amended): the answer of a question document is one of its
    options, whatever the candidate was; it is the candidate's answer when
    that value is truthy (for a string: not empty) and among the final
    options, and the first option otherwise.  The final options of a
    candidate that passed the filter are its own. *)
Theorem correct_answer_among_options quiz_id cfg q index doc :
  questionDoc quiz_id cfg q index = Some doc ->
  includes (Question.options doc) (Question.correct_answer doc) = true /\
  (exists answer,
    get q "correct_answer" = Some answer /\
    Question.correct_answer doc =
      if truthy answer && includes (Question.options doc) answer
      then answer
      else nth 0 (Question.options doc) VUndefined) /\
  (at_least_4_options q = Some true ->
   exists ref, get q "options" = Some (VArr ref (Question.options doc))).
Proof.
  intros H. apply questionDoc_inv in H
    as (q_options & answer & text & points & O & A & _ & _ & ->). simpl.
  split; [|split; [now exists answer|]].
  - apply final_answer_included.
    pose proof (final_options_length q_options) as L.
    destruct (final_options q_options); [simpl in L; lia|discriminate].
  - intros F. apply final_options_kept in F as (ref & elems & O' & E).
    rewrite O in O'. injection O' as ->. exists ref. now rewrite E.
Qed.

(** C1, witness: the document of a question whose answer is the empty
    string. *)
Lemma correct_answer_among_options_witness :
  exists doc,
    questionDoc 1 (one_config 5) empty_answer_question 0 = Some doc /\
    includes (Question.options doc) (Question.correct_answer doc) = true.
Proof.
  eexists. split; [reflexivity|].
  apply (correct_answer_among_options 1 (one_config 5) empty_answer_question 0).
  reflexivity.
Defined.

(** C1, counterexample: the candidate's answer, the empty string, is its
    fourth option and so a member of the final options, yet the document's
    answer is the first option; so it is stored by the handler. *)
Lemma empty_answer_not_kept :
  candidates empty_answer_text = Some [empty_answer_question] /\
  at_least_4_options empty_answer_question = Some true /\
  get empty_answer_question "correct_answer" = Some (VStr []) /\
  (exists doc,
    questionDoc 1 (one_config 5) empty_answer_question 0 = Some doc /\
    includes (Question.options doc) (VStr []) = true /\
    Question.correct_answer doc = VStr (js "a") /\
    Question.correct_answer doc <> VStr []) /\
  Question.correct_answer <$>
    questions (POST (sample_environment empty_answer_text) configured_request
                    empty_store).2 = [VStr (js "a")].
Proof.
  split; [vm_compute; reflexivity|]. split; [reflexivity|].
  split; [reflexivity|]. split; [|vm_compute; reflexivity].
  eexists. split; [reflexivity|].
  split; [reflexivity|]. split; [reflexivity|]. discriminate.
Qed.

(** ** Points *)

Lemma positive_integer_truthy v : is_positive_integer v = true -> truthy v = true.
Proof.
  destruct v; simpl; try discriminate. intros H.
  apply andb_prop in H as [H _]. apply Z.ltb_lt in H.
  destruct (Qeq_bool q 0) eqn:E; [|reflexivity].
  apply Qeq_bool_iff in E. unfold Qeq in E. simpl in E. lia.
Qed.

(** One call of the callback: the points of the document are the
    configured points at [index] when they are truthy, and 10 otherwise;
    they are a positive integer when the configured points are one, or are
    falsy or missing. *)
Lemma questionDoc_points quiz_id cfg q index doc :
  questionDoc quiz_id cfg q index = Some doc ->
  exists config,
    get_index cfg index = Some config /\
    Question.points doc =
      (if truthy (get_optional config "points")
       then get_optional config "points" else VNum 10) /\
    (is_positive_integer (get_optional config "points") = true \/
     truthy (get_optional config "points") = false ->
     is_positive_integer (Question.points doc) = true).
Proof.
  intros H. apply questionDoc_inv in H
    as (q_options & answer & text & points & _ & _ & _ & P & ->). simpl.
  unfold final_points in P.
  destruct (get_index cfg index) as [config|]; [|discriminate].
  simpl in P. injection P as <-. exists config. unfold js_or.
  split; [reflexivity|]. split; [reflexivity|].
  intros [H|H].
  - now rewrite (positive_integer_truthy _ H).
  - now rewrite H.
Qed.

(** C2, counterexample: configured points of -5 are present and not
    positive, and the document keeps them instead of the fallback 10; so it
    is stored by the handler when the database accepts it. *)
Lemma negative_points_kept :
  (exists doc config,
    questionDoc 1 (one_config (-5)) empty_answer_question 0 = Some doc /\
    get_index (one_config (-5)) 0 = Some config /\
    get_optional config "points" = VNum (-5) /\
    Question.points doc = VNum (-5) /\
    Question.points doc <> VNum 10 /\
    is_positive_integer (Question.points doc) = false) /\
  Question.points <$>
    questions (POST (sample_environment two_objects) negative_points_request
                    empty_store).2 = [VNum (-5); VNum 10].
Proof.
  split; [|vm_compute; reflexivity].
  eexists _, _. repeat (split; [reflexivity|]). split; [discriminate|reflexivity].
Qed.

(** * The handler *)

Lemma POST_generate env req st :
  POST env req st =
  match generate env req with
  | Next l => (caught (create env l st).1, (create env l st).2)
  | o => (caught (l ← o; Throw), st)
  end.
Proof.
  unfold POST, mbind at 1, action_bind, pure.
  destruct (generate env req) as [l| | |]; try reflexivity.
  now destruct (create env l st).
Qed.

(** Nothing is written before line 128. *)
Lemma POST_unchanged env req st :
  (forall l, generate env req <> Next l) -> (POST env req st).2 = st.
Proof.
  intros H. rewrite POST_generate.
  destruct (generate env req) as [l| | |]; try reflexivity.
  now destruct (H l).
Qed.

Definition quiz_stored (env : environment) (quiz : Quiz.t) (st : store) : store :=
  Store (<[quiz_object_id env := quiz]> (quizzes st)) (questions st) (sessions st).

(** A run of lines 128-181 that ends with status 201. *)
Lemma create_201 env l st r :
  caught (create env l st).1 = Some r -> status r = 201 ->
  exists questionDocs totalQuizPoints endTime,
    map_throwing (questionDoc (quiz_object_id env) (questionConfigs l)) 0
                 (filteredQuestions l) = Some questionDocs /\
    reduce_points (VNum 0) questionDocs = Some totalQuizPoints /\
    sessionEndTime (now env) (Quiz.duration (newQuiz l)) = Some endTime /\
    r = Response (Success (quiz_object_id env) (session_object_id env)
                          (session_join_code env) created) 201 /\
    (create env l st).2 =
      Store (<[quiz_object_id env := set_total_points (newQuiz l) totalQuizPoints]>
               (<[quiz_object_id env := newQuiz l]> (quizzes st)))
            (questions st ++ questionDocs)
            (<[session_object_id env :=
                 newSession env (quiz_object_id env) (now env) endTime]> (sessions st)).
Proof.
  unfold create, mbind, action_bind, pure, save_quiz, insertMany,
    save_session, throw_unless, throwing, covered, mret, action_ret.
  destruct (valid_object_id env (userId l)); [|simpl; intros [= <-]; discriminate].
  destruct (quiz_saves env (newQuiz l)); [|simpl; intros [= <-]; discriminate].
  destruct (map_throwing _ _ _) as [questionDocs|];
    [|simpl; intros [= <-]; discriminate].
  destruct (questions_insert env questionDocs);
    [|simpl; intros [= <-]; discriminate].
  destruct (reduce_points _ _) as [totalQuizPoints|] eqn:RP; [|discriminate].
  destruct (quiz_saves env (set_total_points _ _));
    [|simpl; intros [= <-]; discriminate].
  cbn [Quiz.duration set_total_points].
  destruct (sessionEndTime _ _) as [endTime|]; [|discriminate].
  destruct (session_saves env _); [|simpl; intros [= <-]; discriminate].
  simpl. intros [= <-] _. now exists questionDocs, totalQuizPoints, endTime.
Qed.

Ltac generate_steps H :=
  unfold generate, select_questions, mbind, outcome_bind, obind, throwing,
    covered, return_if in H;
  repeat (case_match; simplify_eq).

Lemma generate_Return env req r :
  generate env req = Return r -> exists error code, r = json_error error code /\ code <> 201.
Proof.
  intros H. generate_steps H; eexists _, _; (split; [reflexivity|discriminate]).
Qed.

Lemma POST_201 env req st r :
  (POST env req st).1 = Some r -> status r = 201 ->
  exists l questionDocs totalQuizPoints endTime,
    generate env req = Next l /\
    map_throwing (questionDoc (quiz_object_id env) (questionConfigs l)) 0
                 (filteredQuestions l) = Some questionDocs /\
    reduce_points (VNum 0) questionDocs = Some totalQuizPoints /\
    sessionEndTime (now env) (Quiz.duration (newQuiz l)) = Some endTime /\
    (POST env req st).2 =
      Store (<[quiz_object_id env := set_total_points (newQuiz l) totalQuizPoints]>
               (<[quiz_object_id env := newQuiz l]> (quizzes st)))
            (questions st ++ questionDocs)
            (<[session_object_id env :=
                 newSession env (quiz_object_id env) (now env) endTime]> (sessions st)).
Proof.
  rewrite POST_generate.
  destruct (generate env req) as [l|r'| |] eqn:G.
  - cbn [fst snd]. intros C S.
    destruct (create_201 env l st r C S) as (docs & total & e & M & RP & E & _ & St).
    now exists l, docs, total, e.
  - simpl. intros [= <-] S.
    apply generate_Return in G as (error & code & -> & Hc). now destruct Hc.
  - simpl. intros [= <-]. discriminate.
  - discriminate.
Qed.

(** What a run has established when it reaches line 128. *)
Lemma generate_Next env req l :
  generate env req = Next l ->
  exists json topic_value numQuestions,
    body req = Some json /\
    get json "topic" = Some topic_value /\ truthy topic_value = true /\
    get json "numQuestions" = Some numQuestions /\ truthy numQuestions = true /\
    get json "duration" = Some (duration l) /\
    get json "questionConfigs" = Some (questionConfigs l) /\
    filteredQuestions l <> [] /\
    exists content qs,
      candidates (normalize content) = Some qs /\
      filter_throwing at_least_4_options qs = Some (filteredQuestions l).
Proof.
  intros H. generate_steps H.
  repeat match goal with
         | H : _ || _ = false |- _ => apply orb_false_elim in H as [? ?]
         | H : negb _ = false |- _ => apply negb_false_iff in H
         end.
  eexists _, _, _. repeat (split; [eassumption || reflexivity|]).
  split.
  - cbn [filteredQuestions]. intros ->. discriminate.
  - eexists _, _. unfold candidates. split; [|eassumption].
    match goal with H : (parse_generated _).2 = Some _ |- _ => rewrite H end.
    reflexivity.
Qed.

(** ** The stored questions keep the invariant *)

Lemma map_throwing_Forall {A B} (f : A -> nat -> option B) (P : B -> Prop) :
  (forall x i y, f x i = Some y -> P y) ->
  forall l i ys, map_throwing f i l = Some ys -> Forall P ys.
Proof.
  intros Hf. induction l as [|x l IH]; intros i ys; cbn [map_throwing].
  - intros [= <-]. constructor.
  - destruct (f x i) as [y|] eqn:Fx; [|discriminate].
    destruct (map_throwing f (S i) l) as [ys'|] eqn:M; [|discriminate].
    intros [= <-]. constructor; [eapply Hf|eapply IH]; eassumption.
Qed.

(** The questions in the database after lines 128-181: those before, and
    the new documents if [insertMany] was reached. *)
Lemma create_questions env l st :
  questions (create env l st).2 = questions st \/
  exists questionDocs,
    map_throwing (questionDoc (quiz_object_id env) (questionConfigs l)) 0
                 (filteredQuestions l) = Some questionDocs /\
    questions (create env l st).2 = questions st ++ questionDocs.
Proof.
  unfold create, mbind, action_bind, pure, save_quiz, insertMany,
    save_session, throw_unless, throwing, covered, mret, action_ret.
  destruct (map_throwing _ _ _) as [questionDocs|];
    repeat (case_match; simplify_eq); cbn [snd questions]; eauto.
Qed.

(** If the answer of every stored question is one of its options before a
    request, so it is after the request. *)
Lemma stored_answers_among_options env req st :
  Forall (fun doc => includes (Question.options doc)
                              (Question.correct_answer doc) = true)
         (questions st) ->
  Forall (fun doc => includes (Question.options doc)
                              (Question.correct_answer doc) = true)
         (questions (POST env req st).2).
Proof.
  intros H. rewrite POST_generate.
  destruct (generate env req) as [l| | |]; try exact H. cbn [snd].
  destruct (create_questions env l st) as [E|(docs & M & E)];
    rewrite E; [exact H|].
  apply Forall_app. split; [exact H|].
  eapply map_throwing_Forall; [|exact M].
  intros q i doc D. cbn beta.
  apply questionDoc_inv in D
    as (q_options & answer & text & points & _ & _ & _ & _ & E').
  rewrite E'. cbn [Question.options Question.correct_answer].
  apply final_answer_included.
  pose proof (final_options_length q_options) as L.
  destruct (final_options q_options); [simpl in L; lia|discriminate].
Qed.

(** ** Candidates without options *)

(** The callback of the filter throws on [null] (and [undefined]) only. *)
Lemma at_least_4_options_None q :
  at_least_4_options q = None <-> q = VNull \/ q = VUndefined.
Proof.
  unfold at_least_4_options, get.
  destruct q; try (split; [discriminate|intros [?|?]; discriminate]).
  - split; auto.
  - split; auto.
  - destruct (own_property _ _);
      (split; [discriminate|intros [?|?]; discriminate]).
Qed.

Lemma filter_throwing_None qs :
  filter_throwing at_least_4_options qs = None <->
  Exists (fun q => q = VNull \/ q = VUndefined) qs.
Proof.
  induction qs as [|q qs IH]; cbn [filter_throwing].
  - split; [discriminate|]. intros H. inversion H.
  - rewrite Exists_cons, <- IH, <- at_least_4_options_None.
    destruct (at_least_4_options q) as [b|].
    + destruct (filter_throwing at_least_4_options qs).
      * split; [discriminate|]. intros [?|?]; discriminate.
      * split; auto.
    + split; auto.
Qed.

(** Candidates that are not [null] and have no four options are all
    dropped, and the request ends with the response of lines 121-124. *)
Lemma filter_throwing_nothing qs :
  Forall (fun q => at_least_4_options q = Some false) qs ->
  filter_throwing at_least_4_options qs = Some [].
Proof.
  induction 1 as [|q qs Hq _ IH]; [reflexivity|].
  cbn [filter_throwing]. now rewrite Hq, IH.
Qed.

Lemma select_questions_exhausted content qs :
  candidates (normalize content) = Some qs ->
  Forall (fun q => at_least_4_options q = Some false) qs ->
  select_questions content
  = Return (json_error "failed to generate valid multiple choice questions" 500).
Proof.
  unfold candidates, select_questions. intros C F.
  destruct (parse_generated (normalize content)).2 as [v|]; [|discriminate].
  injection C as <-. cbn [mbind outcome_bind obind].
  now rewrite (filter_throwing_nothing _ F).
Qed.

(** C4, the handler at the model output [null]: the only candidate, [null],
    has no options, and the request ends with the generic internal server
    error (the [TypeError] of [q.options] in the filter) and not with the
    response of lines 121-124; the database is unchanged. *)
Theorem null_candidate_internal_error st :
  candidates (normalize (js "null")) = Some [VNull] /\
  select_questions (js "null") = Throw /\
  POST (sample_environment (js "null")) (sample_request topic_and_count) st
  = (Some (json_error "internal server error" 500), st).
Proof.
  split; [vm_compute; reflexivity|]. split; [vm_compute; reflexivity|].
  rewrite POST_generate.
  assert (generate (sample_environment (js "null"))
                   (sample_request topic_and_count) = Throw) as ->
      by (vm_compute; reflexivity).
  reflexivity.
Qed.

(** ** Whole numbers are doubles *)

Lemma Qred_inject_Z z : Qred (inject_Z z) = inject_Z z.
Proof.
  unfold Qred, inject_Z.
  pose proof (Z.ggcd_gcd z 1) as G.
  pose proof (Z.ggcd_correct_divisors z 1) as D.
  destruct (Z.ggcd z 1) as [g [a b]]. cbn [fst snd] in *.
  rewrite Z.gcd_1_r in G. subst g. destruct D as [-> D].
  assert (b = 1%Z) as -> by lia. f_equal. lia.
Qed.

Lemma Qred_integer q z : (q == inject_Z z)%Q -> Qred q = inject_Z z.
Proof. intros H. rewrite <- Qred_inject_Z. now apply Qred_complete. Qed.

Lemma round_half_even_multiple a d :
  (0 < d)%Z -> round_half_even (a * d) d = a.
Proof.
  intros Hd. unfold round_half_even.
  rewrite Z.mod_mul, Z.div_mul by lia.
  destruct (Z.compare_spec (2 * 0) d); lia.
Qed.

Lemma exponent_integer n : (0 < n)%Z -> exponent n 1 = Z.log2 n.
Proof.
  intros Hn. unfold exponent, scale. change (Z.log2 1) with 0%Z.
  rewrite Z.sub_0_r.
  pose proof (Z.log2_nonneg n) as L.
  destruct (Z.leb_spec 0 (Z.log2 n)); [|lia].
  pose proof (Z.log2_spec n Hn) as [S _].
  destruct (Z.ltb_spec n (1 * 2 ^ Z.log2 n)); [lia|reflexivity].
Qed.

(** A whole number [m * 2 ^ k] with a significand [m] of at most 53 bits is
    a double: rounding keeps it. *)
Lemma round_double_integer q m k :
  (q == inject_Z (m * 2 ^ k))%Q -> (Z.abs m < 2 ^ 53)%Z -> (0 <= k <= 971)%Z ->
  round_double q = Some (inject_Z (m * 2 ^ k)).
Proof.
  intros Hq Hm Hk. unfold round_double.
  rewrite (Qred_integer _ _ Hq). cbn [Qnum Qden inject_Z].
  set (z := (m * 2 ^ k)%Z).
  destruct (Z.eqb_spec (Z.abs z) 0) as [Z0|Z0].
  { replace z with 0%Z by lia. reflexivity. }
  assert (0 < Z.abs z)%Z as Hn by lia.
  rewrite (exponent_integer _ Hn).
  assert (0 < 2 ^ k)%Z as Pk by (apply Z.pow_pos_nonneg; lia).
  assert (Z.abs z = Z.abs m * 2 ^ k)%Z as Az.
  { unfold z. rewrite Z.abs_mul, (Z.abs_eq (2 ^ k)) by lia. reflexivity. }
  assert (Z.log2 (Z.abs z) < 53 + k)%Z as L.
  { apply Z.log2_lt_pow2; [lia|]. rewrite Az, Z.pow_add_r by lia. nia. }
  pose proof (Z.log2_nonneg (Z.abs z)) as L0.
  set (p := (Z.log2 (Z.abs z) - 52)%Z) in *.
  rewrite (Z.max_l p (-1074)) by lia.
  assert (p <= k)%Z as Pp by lia.
  unfold scale, binary.
  destruct (Z.leb_spec 0 p) as [P0|P0]; cbv beta iota zeta.
  - assert (0 < 2 ^ p)%Z as Pp2 by (apply Z.pow_pos_nonneg; lia).
    assert (0 < 2 ^ (k - p))%Z as Pkp by (apply Z.pow_pos_nonneg; lia).
    assert (Z.abs z = (Z.abs m * 2 ^ (k - p)) * (1 * 2 ^ p))%Z as E.
    { rewrite Az, Z.mul_1_l, <- Z.mul_assoc, <- Z.pow_add_r by lia.
      now replace (k - p + p)%Z with k by lia. }
    assert (round_half_even (Z.abs z) (1 * 2 ^ p)
            = (Z.abs m * 2 ^ (k - p))%Z) as ->.
    { rewrite E at 1. apply round_half_even_multiple. lia. }
    assert (((971 <? p) || (p =? 971) && (2 ^ 53 <=? Z.abs m * 2 ^ (k - p)))%Z
            = false) as ->.
    { destruct (Z.ltb_spec 971 p); [lia|]. cbn [orb].
      destruct (Z.eqb_spec p 971) as [->|]; [|reflexivity]. cbn [andb].
      replace k with 971%Z by lia. change (2 ^ (971 - 971))%Z with 1%Z.
      destruct (Z.leb_spec (2 ^ 53) (Z.abs m * 1)); [lia|reflexivity]. }
    f_equal. apply Qred_integer.
    replace (Z.sgn z * (Z.abs m * 2 ^ (k - p)) * 2 ^ p)%Z with z; [reflexivity|].
    rewrite <- !Z.mul_assoc, <- Z.pow_add_r by lia.
    replace (k - p + p)%Z with k by lia. rewrite <- Az. lia.
  - assert (0 < 2 ^ (- p))%Z as Pp2 by (apply Z.pow_pos_nonneg; lia).
    assert (round_half_even (Z.abs z * 2 ^ (- p)) 1
            = (Z.abs z * 2 ^ (- p))%Z) as ->.
    { rewrite <- (Z.mul_1_r (Z.abs z * 2 ^ (- p))) at 1.
      apply round_half_even_multiple. lia. }
    destruct (Z.ltb_spec 971 p); [lia|]. cbn [orb].
    destruct (Z.eqb_spec p 971); [lia|]. cbn [andb].
    f_equal. apply Qred_integer. unfold Qeq. cbn [Qnum Qden inject_Z].
    rewrite Z2Pos.id by lia. nia.
Qed.

Lemma number_integer q m k :
  (q == inject_Z (m * 2 ^ k))%Q -> (Z.abs m < 2 ^ 53)%Z -> (0 <= k <= 971)%Z ->
  number q = VNum (inject_Z (m * 2 ^ k)).
Proof.
  intros Hq Hm Hk. unfold number.
  now rewrite (round_double_integer _ _ _ Hq Hm Hk).
Qed.

(** The whole numbers up to 2^53 in particular. *)
Lemma number_safe_integer q z :
  (q == inject_Z z)%Q -> (Z.abs z <= 2 ^ 53)%Z -> number q = VNum (inject_Z z).
Proof.
  intros Hq Hz.
  destruct (Z.eq_dec (Z.abs z) (2 ^ 53)%Z) as [E|E].
  - assert (z = 2 ^ 53 \/ z = - 2 ^ 53)%Z as [Z|Z] by lia; rewrite Z in *.
    + apply (number_integer q 1 53); [exact Hq|reflexivity|lia].
    + apply (number_integer q (-1) 53); [exact Hq|reflexivity|lia].
  - replace z with (z * 2 ^ 0)%Z in * by lia.
    apply number_integer; [exact Hq|lia|lia].
Qed.

(** ** The session window *)

Lemma time_clip_integer t :
  (Z.abs t <= 8640000000000000)%Z -> time_clip (inject_Z t) = Some t.
Proof.
  intros H. unfold time_clip, Qle_bool, Qabs, inject_Z. simpl.
  rewrite Z.quot_1_r.
  destruct (Z.leb_spec (Z.abs t * 1) (8640000000000000 * 1)); [reflexivity|lia].
Qed.

(** For a duration of a whole number of minutes the product and the sum
    are exact. *)
Lemma sessionEndTime_whole (start minutes : Z) (d : Q) :
  (d == inject_Z minutes)%Q ->
  (Z.abs (minutes * 1875) < 2 ^ 53)%Z ->
  (Z.abs (start + minutes * 60000) <= 8640000000000000)%Z ->
  sessionEndTime start (VNum d) = Some (Some (start + minutes * 60000)%Z).
Proof.
  intros Hd Hm H. unfold sessionEndTime.
  rewrite (number_integer _ (minutes * 1875) 5); [| |exact Hm|lia].
  2:{ rewrite Hd. unfold Qeq, Qmult, inject_Z. simpl. lia. }
  rewrite (number_safe_integer _ (start + minutes * 60000)).
  - now rewrite time_clip_integer.
  - unfold Qeq, Qplus, inject_Z. simpl. lia.
  - lia.
Qed.




(** ** The default duration *)

Lemma js_or_default d :
  d = VUndefined \/ d = VNull \/ d = VNum 0 -> js_or d (VNum 10) = VNum 10.
Proof. now intros [->|[->| ->]]. Qed.

(** A request is rejected only for its topic or its number of questions. *)
Lemma POST_400 env req st json r :
  body req = Some json ->
  (POST env req st).1 = Some r -> status r = 400 ->
  truthy (get_optional json "topic") = false \/
  truthy (get_optional json "numQuestions") = false.
Proof.
  intros B. rewrite POST_generate.
  destruct (generate env req) as [l|r'| |] eqn:G.
  - unfold create, mbind, action_bind, pure, save_quiz, insertMany,
      save_session, throw_unless, throwing, covered, mret, action_ret.
    repeat (case_match; simplify_eq); simpl; intros [= <-]; discriminate.
  - simpl. intros [= <-].
    generate_steps G; try discriminate. intros _.
    unfold get_optional.
    repeat match goal with H : get _ _ = Some _ |- _ => rewrite H; clear H end.
    match goal with
    | H : _ || _ = true |- _ =>
      apply orb_prop in H as [H|H]; apply negb_true_iff in H; auto
    end.
  - simpl. intros [= <-]. discriminate.
  - discriminate.
Qed.

(** C10: when the duration of the request is absent, [null] or 0, a quiz
    that the run creates has duration 10; the request is rejected with
    status 400 only for its topic or number of questions; and on status 201
    the session ends 10 minutes after it starts. *)
Theorem default_duration env req st json d :
  body req = Some json ->
  get json "duration" = Some d ->
  d = VUndefined \/ d = VNull \/ d = VNum 0 ->
  (forall l, generate env req = Next l -> Quiz.duration (newQuiz l) = VNum 10) /\
  (forall r, (POST env req st).1 = Some r -> status r = 400 ->
     truthy (get_optional json "topic") = false \/
     truthy (get_optional json "numQuestions") = false) /\
  (forall r, (POST env req st).1 = Some r -> status r = 201 ->
     (Z.abs (now env + 10 * 60000) <= 8640000000000000)%Z ->
     exists quiz session,
       quizzes (POST env req st).2 !! quiz_object_id env = Some quiz /\
       Quiz.duration quiz = VNum 10 /\
       sessions (POST env req st).2 !! session_object_id env = Some session /\
       Session.start_time session = now env /\
       Session.end_time session = Some (now env + 10 * 60000)%Z).
Proof.
  intros B D Hd.
  assert (forall l, generate env req = Next l ->
                    Quiz.duration (newQuiz l) = VNum 10) as Q.
  { intros l G. apply generate_Next in G
      as (json' & _ & _ & B' & _ & _ & _ & _ & D' & _).
    rewrite B in B'. injection B' as <-. rewrite D in D'. injection D' as D'.
    cbn [newQuiz Quiz.duration]. rewrite <- D'. now apply js_or_default. }
  split; [exact Q|]. split; [intros r; now apply POST_400|].
  intros r R S Range.
  destruct (POST_201 env req st r R S)
    as (l & docs & total & e & G & M & RP & E & ->).
  specialize (Q l G). rewrite Q in E.
  rewrite (sessionEndTime_whole _ 10 10%Q) in E;
    [|reflexivity|vm_compute; reflexivity|exact Range].
  injection E as <-.
  eexists _, _. cbn [quizzes sessions].
  split; [apply lookup_insert_eq|]. split; [exact Q|].
  split; [apply lookup_insert_eq|]. now split.
Qed.

(** C10, witness: a request without a duration. *)
Lemma default_duration_witness :
  exists quiz session,
    quizzes (POST (sample_environment two_objects) request_without_duration
                  empty_store).2 !! 1 = Some quiz /\
    Quiz.duration quiz = VNum 10 /\
    sessions (POST (sample_environment two_objects) request_without_duration
                   empty_store).2 !! 2 = Some session /\
    Session.start_time session = 1700000000000%Z /\
    Session.end_time session = Some (1700000000000 + 10 * 60000)%Z.
Proof.
  destruct (default_duration (sample_environment two_objects)
              request_without_duration empty_store _ VUndefined
              eq_refl eq_refl (or_introl eq_refl)) as (_ & _ & H).
  apply (H (Response (Success 1 2 (VStr (js "K7Q2XA")) created) 201)).
  - vm_compute. reflexivity.
  - reflexivity.
  - vm_compute. discriminate.
Defined.

(** * More on the handler *)

(** ** What the filter keeps *)

Lemma filter_throwing_filter qs kept :
  filter_throwing at_least_4_options qs = Some kept ->
  kept = filter (fun q => at_least_4_options q = Some true) qs.
Proof.
  revert kept. induction qs as [|q qs IH]; intros kept; cbn [filter_throwing].
  - now intros [= <-].
  - destruct (at_least_4_options q) as [b|] eqn:E; [|discriminate].
    destruct (filter_throwing at_least_4_options qs) as [kept'|]; [|discriminate].
    intros [= <-]. rewrite (IH kept' eq_refl).
    destruct b.
    + now rewrite filter_cons_True.
    + rewrite filter_cons_False; [reflexivity|]. congruence.
Qed.

Lemma map_throwing_Forall2 {A B} (f : A -> nat -> option B) (R : A -> B -> Prop) :
  forall l i ys,
    Forall (fun x => forall i y, f x i = Some y -> R x y) l ->
    map_throwing f i l = Some ys -> Forall2 R l ys.
Proof.
  induction l as [|x l IH]; intros i ys H; cbn [map_throwing].
  - intros [= <-]. constructor.
  - destruct (f x i) as [y|] eqn:Fx; [|discriminate].
    destruct (map_throwing f (S i) l) as [ys'|] eqn:M; [|discriminate].
    intros [= <-]. inversion H as [|? ? Hx Hl]; subst.
    constructor; [eapply Hx; eassumption|eapply IH; eassumption].
Qed.

Lemma questionDoc_document_of quiz_id cfg q index doc :
  at_least_4_options q = Some true ->
  questionDoc quiz_id cfg q index = Some doc -> document_of quiz_id q doc.
Proof.
  intros F D. apply final_options_kept in F as (ref & elems & O & E).
  apply questionDoc_inv in D
    as (q_options & answer & text & points & O' & _ & T & _ & ->).
  rewrite O in O'. injection O' as O'. subst q_options.
  unfold document_of. cbn [Question.quiz_id Question.question_type
    Question.question_text Question.options].
  repeat (split; [assumption || reflexivity|]).
  exists ref. now rewrite E.
Qed.

Lemma generate_Next_content env req l :
  generate env req = Next l ->
  exists key text content qs,
    create_completion env key text = Some (Some content) /\
    candidates (normalize content) = Some qs /\
    filter_throwing at_least_4_options qs = Some (filteredQuestions l).
Proof.
  intros H. generate_steps H.
  match goal with
  | C : create_completion env _ _ = Some ?o, F : falsy_string ?o = false |- _ =>
    destruct o as [content|]; [|discriminate F];
    exists (string_or_empty (GITHUB_TOKEN env)); eexists _, content, _;
    split; [exact C|]
  end.
  unfold candidates. split; [|eassumption].
  match goal with H : (parse_generated _).2 = Some _ |- _ =>
    cbn [string_or_empty] in H; rewrite H end.
  reflexivity.
Qed.

(** X1: on a 201 response the questions that were inserted are, in order, the
    documents of the candidates with at least four options: each has the
    identifier of the new quiz, the type MCQ, and the text and the options
    of its candidate. *)
Theorem questions_follow_candidates env req st r :
  (POST env req st).1 = Some r -> status r = 201 ->
  exists key text content qs docs,
    create_completion env key text = Some (Some content) /\
    candidates (normalize content) = Some qs /\
    questions (POST env req st).2 = questions st ++ docs /\
    Forall2 (document_of (quiz_object_id env))
            (filter (fun q => at_least_4_options q = Some true) qs) docs.
Proof.
  intros R S.
  destruct (POST_201 env req st r R S)
    as (l & docs & total & e & G & M & _ & _ & ->).
  destruct (generate_Next_content env req l G) as (key & text & content & qs & C & P & F).
  exists key, text, content, qs, docs. repeat (split; [assumption || reflexivity|]).
  rewrite <- (filter_throwing_filter _ _ F).
  eapply map_throwing_Forall2; [|exact M].
  rewrite (filter_throwing_filter _ _ F). apply list.Forall_forall.
  intros q Hq i doc D. apply list_elem_of_filter in Hq as [Hq _].
  eapply questionDoc_document_of; eassumption.
Qed.

(** X1, witness: the sample request, answered 201. *)
Lemma questions_follow_candidates_witness :
  exists key text content qs docs,
    create_completion (sample_environment two_objects) key text
      = Some (Some content) /\
    candidates (normalize content) = Some qs /\
    questions (POST (sample_environment two_objects) configured_request
                    empty_store).2 = questions empty_store ++ docs /\
    Forall2 (document_of (quiz_object_id (sample_environment two_objects)))
            (filter (fun q => at_least_4_options q = Some true) qs) docs.
Proof.
  apply (questions_follow_candidates _ _ _ sample_success);
    [vm_compute; reflexivity|reflexivity].
Defined.

(** ** The points of the stored questions *)

(** The callback of [map] is given the position of the element. *)
Lemma map_throwing_lookup {A B} (f : A -> nat -> option B) l :
  forall index ys,
    map_throwing f index l = Some ys ->
    length ys = length l /\
    forall i y, ys !! i = Some y ->
      exists x, l !! i = Some x /\ f x (index + i)%nat = Some y.
Proof.
  induction l as [|x l IH]; intros index ys; cbn [map_throwing].
  - intros [= <-]. split; [reflexivity|]. intros i y. discriminate.
  - destruct (f x index) as [y0|] eqn:F; [|discriminate].
    destruct (map_throwing f (S index) l) as [ys'|] eqn:M; [|discriminate].
    cbn [mbind option_bind]. intros [= <-].
    destruct (IH _ _ M) as (L & H).
    split; [cbn [length]; now rewrite L|].
    intros [|i] y; cbn.
    + intros [= <-]. exists x. now rewrite Nat.add_0_r.
    + intros Hy. destruct (H i y Hy) as (x' & Hx & Fx).
      exists x'. split; [exact Hx|].
      now replace (index + S i)%nat with (S index + i)%nat by lia.
Qed.

(** C2 (as amended): the questions that a run has added to the database
    are the documents of the candidates with at least four options, in
    their order, and the points of the document at position [i] are the
    points of the configuration at position [i] of the request when they
    are truthy (any number but zero, negative ones included) and 10
    otherwise: when they are falsy or missing, or when there is no
    configuration at that position.  They are a positive integer when the
    configured points are one, or are falsy or missing.  Questions are
    added only when the request has its [questionConfigs]: without them
    the callback throws (see C9). *)
Theorem points_from_config env req st docs :
  questions (POST env req st).2 = questions st ++ docs -> docs <> [] ->
  exists json cfg key text content qs,
    body req = Some json /\
    get json "questionConfigs" = Some cfg /\
    cfg <> VUndefined /\ cfg <> VNull /\
    create_completion env key text = Some (Some content) /\
    candidates (normalize content) = Some qs /\
    length docs
    = length (filter (fun q => at_least_4_options q = Some true) qs) /\
    forall i doc, docs !! i = Some doc ->
      exists q config,
        filter (fun q => at_least_4_options q = Some true) qs !! i = Some q /\
        get q "question_text" = Some (Question.question_text doc) /\
        get_index cfg i = Some config /\
        Question.points doc =
          (if truthy (get_optional config "points")
           then get_optional config "points" else VNum 10) /\
        (is_positive_integer (get_optional config "points") = true \/
         truthy (get_optional config "points") = false ->
         is_positive_integer (Question.points doc) = true).
Proof.
  intros Q Hne. rewrite POST_generate in Q.
  destruct (generate env req) as [l| | |] eqn:G; cbn [snd] in Q;
    try (apply (f_equal length) in Q; rewrite length_app in Q;
         destruct docs; [contradiction|cbn [length] in Q; lia]).
  destruct (create_questions env l st) as [E|(docs' & M & E)]; rewrite E in Q.
  { apply (f_equal length) in Q. rewrite length_app in Q.
    destruct docs; [contradiction|cbn [length] in Q; lia]. }
  apply app_inv_head in Q. subst docs'.
  destruct (generate_Next env req l G)
    as (json & _ & _ & B & _ & _ & _ & _ & _ & C & _ & _).
  destruct (generate_Next_content env req l G)
    as (key & text & content & qs & CC & P & F).
  rewrite (filter_throwing_filter _ _ F) in M.
  destruct (map_throwing_lookup _ _ _ _ M) as (L & H).
  assert (forall i doc, docs !! i = Some doc ->
            exists q config,
              filter (fun q => at_least_4_options q = Some true) qs !! i
                = Some q /\
              get q "question_text" = Some (Question.question_text doc) /\
              get_index (questionConfigs l) i = Some config /\
              Question.points doc =
                (if truthy (get_optional config "points")
                 then get_optional config "points" else VNum 10) /\
              (is_positive_integer (get_optional config "points") = true \/
               truthy (get_optional config "points") = false ->
               is_positive_integer (Question.points doc) = true)) as K.
  { intros i doc D. destruct (H i doc D) as (q & Hq & Dq). cbn [Nat.add] in Dq.
    destruct (questionDoc_points _ _ _ _ _ Dq) as (config & Cf & Pt & Pos).
    apply questionDoc_inv in Dq as (? & ? & t & ? & _ & _ & T & _ & ->).
    exists q, config. now repeat split. }
  exists json, (questionConfigs l), key, text, content, qs.
  split; [exact B|]. split; [exact C|].
  destruct docs as [|doc0 docs]; [contradiction|].
  destruct (K 0%nat doc0 eq_refl) as (_ & config & _ & _ & I & _).
  split; [intros Z; now rewrite Z in I|].
  split; [intros Z; now rewrite Z in I|].
  split; [exact CC|]. split; [exact P|]. split; [exact L|]. exact K.
Qed.

(** C2, witness: two questions, configured with 3 and with 7 points. *)
Lemma points_from_config_witness :
  Question.points <$>
    questions (POST (sample_environment two_objects) two_configs_request
                    empty_store).2 = [VNum 3; VNum 7] /\
  exists json cfg key text content qs,
    body two_configs_request = Some json /\
    get json "questionConfigs" = Some cfg /\
    cfg <> VUndefined /\ cfg <> VNull /\
    create_completion (sample_environment two_objects) key text
    = Some (Some content) /\
    candidates (normalize content) = Some qs /\
    length (questions (POST (sample_environment two_objects)
                            two_configs_request empty_store).2)
    = length (filter (fun q => at_least_4_options q = Some true) qs) /\
    forall i doc,
      questions (POST (sample_environment two_objects) two_configs_request
                      empty_store).2 !! i = Some doc ->
      exists q config,
        filter (fun q => at_least_4_options q = Some true) qs !! i = Some q /\
        get q "question_text" = Some (Question.question_text doc) /\
        get_index cfg i = Some config /\
        Question.points doc =
          (if truthy (get_optional config "points")
           then get_optional config "points" else VNum 10) /\
        (is_positive_integer (get_optional config "points") = true \/
         truthy (get_optional config "points") = false ->
         is_positive_integer (Question.points doc) = true).
Proof.
  split; [vm_compute; reflexivity|].
  apply (points_from_config (sample_environment two_objects)
           two_configs_request empty_store).
  - reflexivity.
  - vm_compute. discriminate.
Defined.

(** ** Requests without question configurations *)

Lemma questionDoc_no_configs quiz_id cfg q index :
  cfg = VUndefined \/ cfg = VNull ->
  questionDoc quiz_id cfg q index = None.
Proof.
  intros C. unfold questionDoc.
  destruct (get q "options"); [|reflexivity].
  destruct (get q "correct_answer"); [|reflexivity].
  destruct (get q "question_text"); [|reflexivity].
  now destruct C as [-> | ->].
Qed.

(** From an authenticated request to the model output. *)
Lemma generate_select env req json topic_value numQuestions topic_text
    number_text token secret caller key content :
  body req = Some json ->
  get json "topic" = Some topic_value -> truthy topic_value = true ->
  to_string topic_value = Some topic_text ->
  get json "numQuestions" = Some numQuestions -> truthy numQuestions = true ->
  to_string numQuestions = Some number_text ->
  authToken req = Some token -> token <> [] ->
  JWT_SECRET env = Some secret -> secret <> [] ->
  jwt_verify env token secret = Some (Some caller) -> caller <> [] ->
  GITHUB_TOKEN env = Some key -> key <> [] ->
  create_completion env key (prompt number_text topic_text)
  = Some (Some content) ->
  content <> [] ->
  generate env req =
    (filteredQuestions ← select_questions content;
     Next (Locals topic_text (get_optional json "duration")
                  (get_optional json "questionConfigs") caller
                  filteredQuestions)).
Proof.
  intros B T Tt Ts N Nt Ns A An J Jn V Cn K Kn C Cc.
  assert (forall k, get json k = Some (get_optional json k)) as G.
  { intros k. unfold get_optional, get in *.
    destruct json; try reflexivity; discriminate T. }
  unfold generate, mbind, outcome_bind, obind, throwing, covered, return_if.
  rewrite B, T, N, !G, Tt, Nt, Ns, Ts, A, J, K. cbn [negb orb string_or_empty].
  destruct token; [contradiction|]. destruct secret; [contradiction|].
  destruct key; [contradiction|]. cbn [falsy_string].
  rewrite V. destruct caller; [contradiction|].
  cbn [falsy_string string_or_empty]. rewrite C.
  destruct content; [contradiction|]. reflexivity.
Qed.

(** The filter on candidates none of which is [null]. *)
Lemma select_questions_kept content qs :
  candidates (normalize content) = Some qs ->
  Forall (fun q => q <> VNull /\ q <> VUndefined) qs ->
  Exists (fun q => at_least_4_options q = Some true) qs ->
  exists q kept,
    select_questions content = Next (q :: kept) /\
    q :: kept = filter (fun q => at_least_4_options q = Some true) qs.
Proof.
  unfold candidates, select_questions. intros C F E.
  destruct (parse_generated (normalize content)).2 as [v|]; [|discriminate].
  injection C as <-. cbn [mbind outcome_bind obind].
  destruct (filter_throwing at_least_4_options (ensure_array v)) as [kept|] eqn:K.
  - pose proof (filter_throwing_filter _ _ K) as ->.
    destruct (filter _ (ensure_array v)) as [|q kept] eqn:Fl.
    + exfalso. apply Exists_exists in E as (q & I & Hq).
      assert (q ∈ filter (fun q => at_least_4_options q = Some true)
                         (ensure_array v)) as M
        by (apply list_elem_of_filter; split; [exact Hq|exact I]).
      rewrite Fl in M. inversion M.
    + exists q, kept. split; reflexivity.
  - exfalso. apply filter_throwing_None in K.
    apply Exists_exists in K as (q & I & Hq).
    apply (proj1 (list.Forall_forall _ _) F) in I. tauto.
Qed.

(** C9 (as amended): a request with a topic and a number of questions
    (strings or whole numbers) and without [questionConfigs] (absent or
    [null]), from a caller
    whose token is verified, for which the model returns an output whose
    candidates are none of them [null] and one of them with at least four
    options, is answered with the generic internal server error, status
    500: the callback of line 138 throws at its first call.  When the
    identifier of the caller is a valid ObjectId and the database accepts
    the quiz, the quiz of line 128 has been saved by then, with total
    points 0, and no question and no session has been added; otherwise
    nothing has been written. *)
Theorem missing_configs_internal_error env req st json topic_value numQuestions
    topic_text number_text token secret caller key content qs :
  body req = Some json ->
  get json "topic" = Some topic_value -> truthy topic_value = true ->
  to_string topic_value = Some topic_text ->
  get json "numQuestions" = Some numQuestions -> truthy numQuestions = true ->
  to_string numQuestions = Some number_text ->
  get_optional json "questionConfigs" = VUndefined \/
  get_optional json "questionConfigs" = VNull ->
  authToken req = Some token -> token <> [] ->
  JWT_SECRET env = Some secret -> secret <> [] ->
  jwt_verify env token secret = Some (Some caller) -> caller <> [] ->
  GITHUB_TOKEN env = Some key -> key <> [] ->
  create_completion env key (prompt number_text topic_text)
  = Some (Some content) ->
  content <> [] ->
  candidates (normalize content) = Some qs ->
  Forall (fun q => q <> VNull /\ q <> VUndefined) qs ->
  Exists (fun q => at_least_4_options q = Some true) qs ->
  exists quiz,
    quiz = {| Quiz.title := js "ai quiz on " ++ topic_text;
              Quiz.description :=
                js "automatically generated quiz about " ++ topic_text;
              Quiz.created_by := caller;
              Quiz.duration := js_or (get_optional json "duration") (VNum 10);
              Quiz.total_points := VNum 0 |} /\
    POST env req st =
      (Some (json_error "internal server error" 500),
       if valid_object_id env caller && quiz_saves env quiz
       then Store (<[quiz_object_id env := quiz]> (quizzes st))
                  (questions st) (sessions st)
       else st).
Proof.
  intros B T Tt Ts N Nt Ns Q A An J Jn V Cn K Kn C Cc P F E.
  eexists. split; [reflexivity|].
  rewrite POST_generate.
  rewrite (generate_select env req json topic_value numQuestions topic_text
             number_text token secret caller key content) by assumption.
  destruct (select_questions_kept content qs P F E) as (q & kept & -> & _).
  cbn [mbind outcome_bind obind].
  unfold create, mbind, action_bind, pure, save_quiz, throw_unless, throwing.
  cbn [userId newQuiz topic duration questionConfigs filteredQuestions].
  destruct (valid_object_id env caller); [|reflexivity].
  cbn [andb]. destruct (quiz_saves env _); [|reflexivity].
  cbn [map_throwing]. rewrite questionDoc_no_configs by exact Q.
  reflexivity.
Qed.

(** C9, witness: a request with a topic and a number of questions only. *)
Lemma missing_configs_witness :
  exists quiz,
    quiz = {| Quiz.title := js "ai quiz on " ++ js "rivers";
              Quiz.description :=
                js "automatically generated quiz about " ++ js "rivers";
              Quiz.created_by := js "64b64c1f0f1d2c3b4a596877";
              Quiz.duration :=
                js_or (get_optional (VObj 0 topic_and_count) "duration")
                      (VNum 10);
              Quiz.total_points := VNum 0 |} /\
    POST (sample_environment two_objects) unconfigured_request empty_store =
      (Some (json_error "internal server error" 500),
       if valid_object_id (sample_environment two_objects)
            (js "64b64c1f0f1d2c3b4a596877")
          && quiz_saves (sample_environment two_objects) quiz
       then Store (<[1 := quiz]> (quizzes empty_store))
                  (questions empty_store) (sessions empty_store)
       else empty_store).
Proof.
  eapply (missing_configs_internal_error (sample_environment two_objects)
            unconfigured_request empty_store (VObj 0 topic_and_count)
            (VStr (js "rivers")) (VNum 2) (js "rivers") (js "2")
            (js "cookie") (js "secret") (js "64b64c1f0f1d2c3b4a596877")
            (js "token") two_objects);
    first [ discriminate
          | vm_compute; reflexivity
          | left; reflexivity
          | repeat constructor; discriminate
          | constructor; reflexivity ].
Defined.

(** C9, counterexample: the same request when the model output has [null]
    in front of a question with four options.  The request has its topic
    and its number of questions and no [questionConfigs], and the output
    yields a candidate with four options; but the filter of line 116
    throws on [null], before the quiz is created: the response is the same
    internal server error, and no quiz has been saved. *)
Lemma missing_configs_without_quiz :
  (exists q,
     candidates (normalize null_and_question) = Some [VNull; q] /\
     at_least_4_options q = Some true) /\
  get_optional (VObj 0 topic_and_count) "questionConfigs" = VUndefined /\
  POST (sample_environment null_and_question) unconfigured_request empty_store
  = (Some (json_error "internal server error" 500), empty_store).
Proof.
  split; [eexists; split; [vm_compute; reflexivity|reflexivity]|].
  split; [reflexivity|]. vm_compute. reflexivity.
Qed.

(** ** The total of the points *)




(** Points that are strings: the request is answered 201 and the total is
    the concatenation of 0 and the two strings. *)
Example total_points_concatenated :
  (POST (sample_environment two_objects) string_points_request empty_store).1
  = Some sample_success /\
  exists quiz,
    quizzes (POST (sample_environment two_objects) string_points_request
                  empty_store).2 !! 1 = Some quiz /\
    Quiz.total_points quiz = VStr (js "055").
Proof.
  split; [vm_compute; reflexivity|].
  eexists. split; [vm_compute; reflexivity|]. reflexivity.
Qed.

(** ** What the handler leaves alone *)

Lemma create_frame env l st :
  (forall id, id <> quiz_object_id env ->
     quizzes (create env l st).2 !! id = quizzes st !! id) /\
  (forall id, id <> session_object_id env ->
     sessions (create env l st).2 !! id = sessions st !! id) /\
  exists docs, questions (create env l st).2 = questions st ++ docs.
Proof.
  unfold create, mbind, action_bind, pure, save_quiz, insertMany,
    save_session, throw_unless, throwing, covered, mret, action_ret.
  repeat (case_match; simplify_eq); cbn [snd quizzes sessions questions];
    (split; [|split]);
    try (intros id Hid; now rewrite ?lookup_insert_ne by congruence);
    first [ now exists []; rewrite app_nil_r | now eexists ].
Qed.

(** X3: whatever the handler answers, the other quizzes and sessions of the
    database are as before, and the questions that were there are still
    there, in front of the new ones. *)
Theorem other_records_untouched env req st :
  (forall id, id <> quiz_object_id env ->
     quizzes (POST env req st).2 !! id = quizzes st !! id) /\
  (forall id, id <> session_object_id env ->
     sessions (POST env req st).2 !! id = sessions st !! id) /\
  exists docs, questions (POST env req st).2 = questions st ++ docs.
Proof.
  rewrite POST_generate.
  destruct (generate env req) as [l| | |]; cbn [snd];
    try (repeat split; try reflexivity; exists []; now rewrite app_nil_r).
  apply create_frame.
Qed.

(** ** Responses and writes *)

Ltac create_steps :=
  unfold create, mbind, action_bind, pure, save_quiz, insertMany,
    save_session, throw_unless, throwing, covered, mret, action_ret.

(** What lines 128-181 answer. *)
Lemma create_responses env l st r :
  caught (create env l st).1 = Some r ->
  r = json_error "internal server error" 500 \/
  r = Response (Success (quiz_object_id env) (session_object_id env)
                        (session_join_code env) created) 201.
Proof.
  create_steps.
  repeat (case_match; simplify_eq); cbn [fst caught]; intros [= <-]; auto.
Qed.

(** Lines 128-181 write nothing unless the quiz is saved, and then the
    quiz in the database belongs to the caller. *)
Lemma create_writes env l st :
  (create env l st).2 = st \/
  exists quiz,
    quizzes (create env l st).2 !! quiz_object_id env = Some quiz /\
    Quiz.created_by quiz = userId l /\
    Quiz.title quiz = js "ai quiz on " ++ topic l.
Proof.
  create_steps.
  repeat (case_match; simplify_eq); cbn [snd quizzes]; auto;
    right; eexists; (split; [apply lookup_insert_eq|now split]).
Qed.

(** X4: a response other than 201 and other than the internal server error of
    the outer [catch] comes with an unchanged database. *)
Theorem specific_errors_write_nothing env req st r :
  (POST env req st).1 = Some r ->
  status r <> 201 ->
  r <> json_error "internal server error" 500 ->
  (POST env req st).2 = st.
Proof.
  rewrite POST_generate.
  destruct (generate env req) as [l| | |]; cbn [fst snd]; try reflexivity.
  intros C S E. apply create_responses in C as [->| ->]; [now destruct E|].
  now destruct S.
Qed.

(** X4, witness: a request without a cookie. *)
Lemma specific_errors_write_nothing_witness :
  (POST (sample_environment two_objects) anonymous_request empty_store).2
  = empty_store.
Proof.
  apply (specific_errors_write_nothing _ _ _
           (json_error "user is not authenticated" 401));
    [vm_compute; reflexivity|discriminate|discriminate].
Defined.

Lemma generate_Next_caller env req l :
  generate env req = Next l ->
  exists token secret,
    authToken req = Some token /\ token <> [] /\
    JWT_SECRET env = Some secret /\ secret <> [] /\
    jwt_verify env token secret = Some (Some (userId l)) /\
    userId l <> [].
Proof.
  intros H. generate_steps H. cbn [userId].
  repeat match goal with
         | F : falsy_string ?o = false |- _ =>
           destruct o as [[|? ?]|]; try discriminate F; clear F
         end.
  cbn [string_or_empty] in *.
  eexists _, _. repeat (split; [eassumption || reflexivity || discriminate|]).
  discriminate.
Qed.

(** X5: the handler changes the database only for a caller whose token was
    verified with the configured secret, and then the quiz it stored was
    created by that caller. *)
Theorem writes_need_a_verified_caller env req st :
  (POST env req st).2 <> st ->
  exists token secret caller quiz,
    authToken req = Some token /\ token <> [] /\
    JWT_SECRET env = Some secret /\ secret <> [] /\
    jwt_verify env token secret = Some (Some caller) /\ caller <> [] /\
    valid_object_id env caller = true /\
    quizzes (POST env req st).2 !! quiz_object_id env = Some quiz /\
    Quiz.created_by quiz = caller.
Proof.
  rewrite POST_generate.
  destruct (generate env req) as [l| | |] eqn:G; cbn [snd]; try congruence.
  intros H.
  destruct (generate_Next_caller env req l G) as (token & secret & A & At & J & Js & V & U).
  destruct (create_writes env l st) as [E|(quiz & Q & C & _)]; [congruence|].
  exists token, secret, (userId l), quiz.
  repeat (split; [assumption|]). split; [|now split].
  destruct (valid_object_id env (userId l)) eqn:O; [reflexivity|].
  exfalso. apply H. create_steps. now rewrite O.
Qed.

(** X5, witness: the sample request, which stores two questions. *)
Lemma writes_need_a_verified_caller_witness :
  exists token secret caller quiz,
    authToken configured_request = Some token /\ token <> [] /\
    JWT_SECRET (sample_environment two_objects) = Some secret /\ secret <> [] /\
    jwt_verify (sample_environment two_objects) token secret = Some (Some caller) /\
    caller <> [] /\
    valid_object_id (sample_environment two_objects) caller = true /\
    quizzes (POST (sample_environment two_objects) configured_request
                  empty_store).2 !! 1 = Some quiz /\
    Quiz.created_by quiz = caller.
Proof.
  apply (writes_need_a_verified_caller (sample_environment two_objects)
           configured_request empty_store).
  intros E. apply (f_equal questions) in E. vm_compute in E. discriminate E.
Defined.

Lemma get_not_null json k :
  json <> VNull -> json <> VUndefined -> get json k = Some (get_optional json k).
Proof. unfold get_optional, get. destruct json; congruence. Qed.

(** X6: a request whose body has no topic or no number of questions (or a
    falsy one) is answered 400 with the error of line 20, whatever the cookie
    and the collaborators are, and nothing is written. *)
Theorem missing_fields_rejected env req st json :
  body req = Some json -> json <> VNull -> json <> VUndefined ->
  truthy (get_optional json "topic") = false \/
  truthy (get_optional json "numQuestions") = false ->
  POST env req st = (Some (json_error "missing required fields" 400), st).
Proof.
  intros B N U F. rewrite POST_generate.
  assert (generate env req = Return (json_error "missing required fields" 400)) as ->.
  { unfold generate, mbind, outcome_bind, obind, throwing. rewrite B.
    cbn beta iota.
    repeat (rewrite (get_not_null json) by assumption; cbn beta iota).
    assert (negb (truthy (get_optional json "topic"))
            || negb (truthy (get_optional json "numQuestions")) = true) as ->.
    { destruct F as [-> | ->]; [reflexivity|apply orb_true_r]. }
    reflexivity. }
  reflexivity.
Qed.

(** X6, witness: a request with an empty topic. *)
Lemma missing_fields_rejected_witness :
  POST (sample_environment two_objects)
       (sample_request [(js "topic", VStr []); (js "numQuestions", VNum 3)])
       empty_store
  = (Some (json_error "missing required fields" 400), empty_store).
Proof.
  apply (missing_fields_rejected _ _ _
           (VObj 0 [(js "topic", VStr []); (js "numQuestions", VNum 3)]));
    [reflexivity|discriminate|discriminate|left; reflexivity].
Defined.

(** X7: a request is answered 401 only if the cookie is missing or empty, the
    secret is missing or empty, the verification of the token throws, or the
    decoded token has no identifier. *)
Theorem unauthorized_only_without_caller env req st r :
  (POST env req st).1 = Some r -> status r = 401 ->
  falsy_string (authToken req) = true \/
  falsy_string (JWT_SECRET env) = true \/
  jwt_verify env (string_or_empty (authToken req))
             (string_or_empty (JWT_SECRET env)) = None \/
  exists decoded,
    jwt_verify env (string_or_empty (authToken req))
               (string_or_empty (JWT_SECRET env)) = Some decoded /\
    falsy_string decoded = true.
Proof.
  rewrite POST_generate.
  destruct (generate env req) as [l|r'| |] eqn:G; cbn [fst caught].
  - intros C S. apply create_responses in C as [-> | ->]; discriminate.
  - intros [= <-] S. generate_steps G; try discriminate S; eauto 6.
  - intros [= <-]. discriminate.
  - discriminate.
Qed.

(** X7, witness: a request without a cookie. *)
Lemma unauthorized_only_without_caller_witness :
  falsy_string (authToken anonymous_request) = true \/
  falsy_string (JWT_SECRET (sample_environment two_objects)) = true \/
  jwt_verify (sample_environment two_objects)
             (string_or_empty (authToken anonymous_request))
             (string_or_empty (JWT_SECRET (sample_environment two_objects))) = None \/
  exists decoded,
    jwt_verify (sample_environment two_objects)
               (string_or_empty (authToken anonymous_request))
               (string_or_empty (JWT_SECRET (sample_environment two_objects)))
      = Some decoded /\
    falsy_string decoded = true.
Proof.
  apply (unauthorized_only_without_caller _ _ empty_store
           (json_error "user is not authenticated" 401));
    [vm_compute; reflexivity|reflexivity].
Defined.

(** X8: a response is either 201 with the identifiers of the new quiz and of
    the new session, the join code and the message of line 178, or an error
    with the status 400, 401 or 500. *)
Theorem POST_responses env req st r :
  (POST env req st).1 = Some r ->
  (status r = 201 /\
   reply_body r = Success (quiz_object_id env) (session_object_id env)
                          (session_join_code env) created) \/
  (exists error, reply_body r = Error error /\
                 (status r = 400 \/ status r = 401 \/ status r = 500)).
Proof.
  rewrite POST_generate.
  destruct (generate env req) as [l|r'| |] eqn:G; cbn [fst caught].
  - intros C. apply create_responses in C as [-> | ->]; [right|left]; eauto.
  - intros [= <-]. right. generate_steps G; eauto.
  - intros [= <-]. right. eauto.
  - discriminate.
Qed.

(** X8, witness: the sample request, answered 201. *)
Lemma POST_responses_witness :
  (status sample_success = 201 /\
   reply_body sample_success
   = Success (quiz_object_id (sample_environment two_objects))
             (session_object_id (sample_environment two_objects))
             (session_join_code (sample_environment two_objects)) created) \/
  (exists error, reply_body sample_success = Error error /\
                 (status sample_success = 400 \/ status sample_success = 401 \/
                  status sample_success = 500)).
Proof.
  apply (POST_responses (sample_environment two_objects) configured_request
           empty_store).
  vm_compute. reflexivity.
Defined.

(** X9: the identifiers of a 201 response are those of records that are then
    in the database: the quiz, and a session of that quiz with the join code
    of the response. *)
Theorem success_names_stored_records env req st quizId sessionId code message :
  (POST env req st).1 = Some (Response (Success quizId sessionId code message) 201) ->
  exists quiz session,
    quizzes (POST env req st).2 !! quizId = Some quiz /\
    sessions (POST env req st).2 !! sessionId = Some session /\
    Session.quiz_id session = quizId /\
    Session.join_code session = code.
Proof.
  intros R.
  destruct (POST_201 env req st _ R eq_refl)
    as (l & docs & total & e & G & _ & _ & _ & St).
  rewrite POST_generate, G in R. cbn [fst] in R.
  apply create_responses in R as [R|R]; [discriminate R|].
  injection R as -> -> -> _. rewrite St. cbn [quizzes sessions].
  eexists _, _. split; [apply lookup_insert_eq|].
  split; [apply lookup_insert_eq|]. now split.
Qed.

(** X9, witness: the sample request, answered 201. *)
Lemma success_names_stored_records_witness :
  exists quiz session,
    quizzes (POST (sample_environment two_objects) configured_request
                  empty_store).2 !! 1 = Some quiz /\
    sessions (POST (sample_environment two_objects) configured_request
                   empty_store).2 !! 2 = Some session /\
    Session.quiz_id session = 1 /\
    Session.join_code session = VStr (js "K7Q2XA").
Proof.
  apply (success_names_stored_records _ _ _ _ _ _ created).
  vm_compute. reflexivity.
Defined.

(** * More on the clean-up *)

Lemma trim_last s t c : trim s = t ++ [c] -> is_space c = false.
Proof.
  unfold trim, trim_end. intros H.
  apply (f_equal (@rev N)) in H. rewrite rev_involutive, rev_app_distr in H.
  simpl in H. eapply trim_start_head; eassumption.
Qed.

(** X10: the cleaned output neither starts nor ends with white space, and is
    not longer than the output of the model. *)
Theorem normalize_is_trimmed s :
  (forall c t, normalize s = c :: t -> is_space c = false) /\
  (forall t c, normalize s = t ++ [c] -> is_space c = false) /\
  (length (normalize s) <= length s)%nat.
Proof.
  split; [|split].
  - intros c t. apply trim_head.
  - intros t c. apply trim_last.
  - unfold normalize.
    etransitivity; [apply trim_length|].
    etransitivity; apply replace_first_by_group_length.
Qed.

(** A text without a backtick has no fence. *)
Lemma plain_fence_needs_backtick s :
  match_here plain_fence s <> None -> exists t, s = backtick :: t.
Proof.
  unfold plain_fence. intros H.
  apply match_here_lits in H as (x & -> & _). now eexists.
Qed.

Lemma search_without_backtick s :
  Forall (fun c => c <> backtick) s -> search plain_fence s = None.
Proof.
  intros F. destruct (search plain_fence s) as [[b h]|] eqn:E; [|reflexivity].
  apply search_Some in E as (s' & -> & M).
  destruct (plain_fence_needs_backtick s') as [t ->]; [congruence|].
  apply Forall_app in F as [_ F]. inversion F; congruence.
Qed.

(** X11: an output without a backtick is only trimmed. *)
Theorem normalize_without_backtick s :
  Forall (fun c => c <> backtick) s -> normalize s = trim s.
Proof.
  intros F. unfold normalize.
  pose proof (search_without_backtick s F) as P.
  rewrite (replace_first_by_group_None json_fence)
    by now apply no_plain_fence_no_json_fence.
  now rewrite (replace_first_by_group_None plain_fence).
Qed.

(** X11, witness: a text without a backtick. *)
Lemma normalize_without_backtick_witness :
  normalize (js "  [1, 2] ") = trim (js "  [1, 2] ").
Proof.
  apply normalize_without_backtick.
  repeat constructor; discriminate.
Defined.

(** ** A fenced block *)

Lemma match_here_lits_hit p r x h :
  match_here r x = Some h ->
  exists h', match_here (lits p ++ r) (js p ++ x) = Some h' /\
             group1 h' = group1 h /\ after h' = after h.
Proof.
  intros H. induction p as [|a p (h' & M & G & A)]; [now exists h|].
  change (lits (String a p) ++ r) with (lit a :: lits p ++ r).
  change (js (String a p) ++ x) with (ch a :: js p ++ x).
  rewrite match_here_lit, N.eqb_refl, M. eexists. split; [reflexivity|].
  now split.
Qed.

Lemma match_here_lits_fail p r c s :
  p <> EmptyString ->
  (forall a p', p = String a p' -> ch a <> c) ->
  match_here (lits p ++ r) (c :: s) = None.
Proof.
  destruct p as [|a p]; [congruence|]. intros _ H.
  change (lits (String a p) ++ r) with (lit a :: lits p ++ r).
  rewrite match_here_lit.
  destruct (ch a =? c) eqn:E; [|reflexivity].
  apply N.eqb_eq in E. now destruct (H a p eq_refl).
Qed.

Lemma match_here_lazy it r s :
  quant it = Lazy ->
  match_here (it :: r) s =
  match match_here r s with
  | Some h => Some h
  | None =>
    match s with
    | c :: s' =>
      if accepts it c then consume it c <$> match_here (it :: r) s' else None
    | [] => None
    end
  end.
Proof. intros Q. cbn [match_here]. rewrite Q. now destruct s. Qed.

Lemma match_here_greedy it r s :
  quant it = Greedy ->
  match_here (it :: r) s =
  match s with
  | c :: s' =>
    if accepts it c then
      match match_here (it :: r) s' with
      | Some h => Some (consume it c h)
      | None => match_here r s
      end
    else match_here r s
  | [] => match_here r []
  end.
Proof. intros Q. cbn [match_here]. rewrite Q. now destruct s. Qed.

Lemma lazy_any_capture x tail :
  Forall (fun c => c <> backtick) x ->
  exists h,
    match_here (Item any_char Lazy true :: lits "```") (x ++ js "```" ++ tail)
    = Some h /\ group1 h = x /\ after h = tail.
Proof.
  induction 1 as [|c x Hc _ (h & M & G & A)].
  - destruct (match_here_lits_hit "```" [] tail (Hit [] [] tail) eq_refl)
      as (h' & M & G & A).
    rewrite app_nil_r in M. exists h'.
    rewrite match_here_lazy by reflexivity.
    change ([] ++ js "```" ++ tail) with (js "```" ++ tail). now rewrite M.
  - rewrite match_here_lazy by reflexivity. cbn [app].
    pose proof (match_here_lits_fail "```" [] c (x ++ js "```" ++ tail)) as F.
    rewrite app_nil_r in F. rewrite F.
    + cbn [accepts any_char]. rewrite M. eexists. split; [reflexivity|].
      cbn. now rewrite G, A.
    + discriminate.
    + intros a p' [= <- _]. intros E. apply Hc. now rewrite <- E.
Qed.

Lemma trim_start_app a c z :
  is_space c = false -> trim_start (a ++ c :: z) = trim_start a ++ c :: z.
Proof.
  intros H. induction a as [|x a IH]; simpl.
  - now rewrite H.
  - now destruct (is_space x).
Qed.

Lemma greedy_space_hit r s h :
  match_here r (trim_start s) = Some h ->
  exists h', match_here (Item is_space Greedy false :: r) s = Some h' /\
             group1 h' = group1 h /\ after h' = after h.
Proof.
  induction s as [|c s IH]; cbn [trim_start];
    rewrite match_here_greedy by reflexivity; cbn [accepts].
  - intros M. exists h. now rewrite M.
  - destruct (is_space c).
    + intros M. destruct (IH M) as (h' & M' & G & A). rewrite M'.
      eexists. split; [reflexivity|]. now split.
    + intros M. exists h. now rewrite M.
Qed.

Lemma search_skips r pre x h :
  Forall (fun c => forall t, match_here r (c :: t) = None) pre ->
  match_here r x = Some h -> search r (pre ++ x) = Some (pre, h).
Proof.
  intros F M. induction F as [|c pre Hc _ IH]; cbn [app search].
  - destruct x; cbn [search]; now rewrite M.
  - now rewrite Hc, IH.
Qed.

Lemma json_fence_fails c t : c <> backtick -> match_here json_fence (c :: t) = None.
Proof.
  intros H. unfold json_fence. apply match_here_lits_fail; [discriminate|].
  intros a p' [= <- _] E. apply H. now rewrite <- E.
Qed.

(** X12: of an output with one fenced json block, in a text without other
    backticks, the clean-up keeps the text before the block, the body of the
    block without its leading white space and the text after the block, and
    trims the result. *)
Theorem fenced_json_block pre body post :
  Forall (fun c => c <> backtick) pre ->
  Forall (fun c => c <> backtick) body ->
  Forall (fun c => c <> backtick) post ->
  normalize (pre ++ js "```json" ++ body ++ js "```" ++ post)
  = trim (pre ++ trim_start body ++ post).
Proof.
  intros Fpre Fbody Fpost.
  assert (Forall (fun c => c <> backtick) (trim_start body)) as Fbody'.
  { clear -Fbody. induction Fbody as [|c b Hc Hb IH]; cbn [trim_start];
      [constructor|]. destruct (is_space c); [exact IH|now constructor]. }
  destruct (lazy_any_capture (trim_start body) post Fbody') as (h1 & M1 & G1 & A1).
  destruct (greedy_space_hit (Item any_char Lazy true :: lits "```")
              (body ++ js "```" ++ post) h1) as (h2 & M2 & G2 & A2).
  { change (js "```" ++ post) with (backtick :: (js "``" ++ post)).
    rewrite trim_start_app by reflexivity. exact M1. }
  destruct (match_here_lits_hit "```json" _ _ h2 M2) as (h3 & M3 & G3 & A3).
  assert (replace_first_by_group json_fence
            (pre ++ js "```json" ++ body ++ js "```" ++ post)
          = pre ++ trim_start body ++ post) as E.
  { unfold replace_first_by_group.
    rewrite (search_skips json_fence pre _ h3).
    - now rewrite G3, G2, G1, A3, A2, A1.
    - eapply Forall_impl; [exact Fpre|]. intros c Hc t. now apply json_fence_fails.
    - exact M3. }
  unfold normalize. rewrite E.
  rewrite (replace_first_by_group_None plain_fence); [reflexivity|].
  apply search_without_backtick. now repeat (apply Forall_app; split).
Qed.

(** X12, witness: a block between two remarks. *)
Lemma fenced_json_block_witness :
  normalize (js "Sure: " ++ js "```json" ++ js " [1] " ++ js "```" ++ js " done")
  = trim (js "Sure: " ++ trim_start (js " [1] ") ++ js " done").
Proof.
  apply fenced_json_block; repeat constructor; discriminate.
Defined.

(** * More on the repair and on the extraction *)

Lemma greedy_shape it r s h :
  quant it = Greedy ->
  match_here (it :: r) s = Some h ->
  exists a s' h',
    s = a ++ s' /\ Forall (fun c => accepts it c = true) a /\
    match_here r s' = Some h' /\
    whole h = a ++ whole h' /\ after h = after h'.
Proof.
  intros Q. revert h. induction s as [|c s IH]; intros h;
    rewrite match_here_greedy by exact Q.
  - intros M. now exists [], [], h.
  - destruct (accepts it c) eqn:A.
    + destruct (match_here (it :: r) s) as [h0|] eqn:M0.
      * intros [= <-]. destruct (IH h0 eq_refl) as (a & s' & h' & -> & F & M & W & Af).
        exists (c :: a), s', h'. cbn. rewrite W. repeat split; auto.
      * intros M. now exists [], (c :: s), h.
    + intros M. now exists [], (c :: s), h.
Qed.

(** ** The extracted objects *)

Lemma not_close_spec c : not_close c = true -> c <> ch "}".
Proof. unfold not_close. intros H ->. now rewrite N.eqb_refl in H. Qed.

Lemma flat_object_flat s h :
  match_here flat_object s = Some h -> flat (whole h) /\ s = whole h ++ after h.
Proof.
  intros M. split; [|now apply match_here_shape in M].
  revert M. unfold flat_object. rewrite match_here_lit.
  destruct s as [|c0 s]; [discriminate|].
  destruct (ch "{" =? c0) eqn:E0; [|discriminate]. apply N.eqb_eq in E0. subst c0.
  destruct (match_here _ s) as [h1|] eqn:M1; [|discriminate].
  intros [= <-]. revert M1. cbn [match_here quant accepts] .
  destruct s as [|c1 s]; [discriminate|].
  destruct (not_close c1) eqn:E1; [|discriminate].
  match goal with |- context [fmap _ ?m] => destruct m as [h2|] eqn:M2 end;
    [|discriminate].
  intros [= <-].
  change (match_here [Item not_close Greedy false; lit "}"] s = Some h2) in M2.
  apply greedy_shape in M2 as (a & s' & h' & -> & F & M & W & _); [|reflexivity].
  rewrite match_here_lit in M. destruct s' as [|c2 s']; [discriminate|].
  destruct (ch "}" =? c2) eqn:E2; [|discriminate]. apply N.eqb_eq in E2. subst c2.
  cbn [match_here fmap option_fmap option_map] in M. injection M as <-.
  exists (c1 :: a). cbn. rewrite W. cbn. split; [reflexivity|].
  split; [discriminate|]. constructor; [now apply not_close_spec|].
  eapply Forall_impl; [exact F|]. intros c. apply not_close_spec.
Qed.

Lemma match_all_loop_flat n : forall s,
  Forall (fun m => flat m /\ exists b a, s = b ++ m ++ a)
         (match_all_loop n flat_object s).
Proof.
  induction n as [|n IH]; intros s; cbn [match_all_loop]; [constructor|].
  destruct (search flat_object s) as [[b h]|] eqn:E; [|constructor].
  apply search_Some in E as (s' & -> & M).
  apply flat_object_flat in M as [F ->].
  constructor.
  - split; [exact F|]. now exists b, (after h).
  - eapply Forall_impl; [apply IH|]. cbn beta.
    intros m [Fm (b' & a' & E)]. split; [exact Fm|].
    exists (b ++ whole h ++ b'), a'. rewrite E. now rewrite <- !app_assoc.
Qed.

(** X13: every text extracted by line 92 is a part of the output that opens
    with a brace, closes with the first closing brace after it and has at
    least one character in between. *)
Theorem extracted_objects_are_flat s :
  Forall (fun m => flat m /\ exists b a, s = b ++ m ++ a)
         (match_all flat_object s).
Proof. apply match_all_loop_flat. Qed.

(** ** The repair leaves no two objects next to each other *)

Lemma trim_start_spaces a : Forall (fun c => is_space c = true) a -> trim_start a = [].
Proof. induction 1 as [|c a Hc _ IH]; simpl; [reflexivity|]. now rewrite Hc. Qed.

(** The pattern of line 88 matches at a closing brace that an opening brace
    follows, with white space only in between. *)
Lemma adjacent_objects_spec s :
  match_here adjacent_objects s <> None <->
  exists t u, s = ch "}" :: t /\ trim_start t = ch "{" :: u.
Proof.
  unfold adjacent_objects. rewrite match_here_lit. split.
  - destruct s as [|c s]; [congruence|].
    destruct (ch "}" =? c) eqn:E; [|congruence]. apply N.eqb_eq in E. subst c.
    destruct (match_here _ s) as [h|] eqn:M; [|cbn; congruence].
    intros _.
    apply greedy_shape in M as (a & s' & h' & -> & F & M & _); [|reflexivity].
    rewrite match_here_lit in M. destruct s' as [|c s']; [discriminate|].
    destruct (ch "{" =? c) eqn:E; [|discriminate]. apply N.eqb_eq in E. subst c.
    exists (a ++ ch "{" :: s'), s'. split; [reflexivity|].
    rewrite trim_start_app by reflexivity. now rewrite trim_start_spaces.
  - intros (t & u & -> & T). rewrite N.eqb_refl.
    destruct (greedy_space_hit [lit "{"] t (Hit [ch "{"] [] u)) as (h' & M & _).
    { rewrite T. reflexivity. }
    rewrite M. discriminate.
Qed.

Lemma search_leftmost r s b h :
  search r s = Some (b, h) ->
  forall b1 c b2 rest, s = b1 ++ c :: b2 ++ rest -> b = b1 ++ c :: b2 ->
                       match_here r (c :: b2 ++ rest) = None.
Proof.
  revert b. induction s as [|x s IH]; intros b; cbn [search].
  - destruct (match_here r []); [|discriminate]. intros [= <- <-].
    intros b1 c b2 rest _ E. now destruct b1.
  - destruct (match_here r (x :: s)) as [h0|] eqn:M.
    + intros [= <- <-]. intros b1 c b2 rest _ E. now destruct b1.
    + destruct (search r s) as [[b' h']|] eqn:S; [|discriminate].
      cbn. intros [= <- <-]. intros b1 c b2 rest E1 E2.
      destruct b1 as [|y b1]; cbn in E1, E2.
      * injection E1 as <- <-. exact M.
      * injection E1 as <- E1. injection E2 as E2.
        eapply (IH b' eq_refl); eassumption.
Qed.

Lemma search_app r b z :
  (forall b1 c b2, b = b1 ++ c :: b2 -> match_here r (c :: b2 ++ z) = None) ->
  search r z = None -> search r (b ++ z) = None.
Proof.
  intros H Z. induction b as [|c b IH]; [exact Z|].
  cbn [app search]. rewrite (H [] c b eq_refl), IH; [reflexivity|].
  intros b1 c' b2 ->. now apply (H (c :: b1)).
Qed.

Lemma adjacent_objects_None s :
  (forall t u, s = ch "}" :: t -> trim_start t = ch "{" :: u -> False) ->
  match_here adjacent_objects s = None.
Proof.
  intros H. destruct (match_here adjacent_objects s) eqn:M; [|reflexivity].
  destruct (proj1 (adjacent_objects_spec s)) as (t & u & E & T); [congruence|].
  destruct (H t u E T).
Qed.

Lemma replace_all_loop_clean n : forall s,
  (length s <= n)%nat ->
  search adjacent_objects (replace_all_loop n adjacent_objects (js "},{") s) = None.
Proof.
  induction n as [|n IH]; intros s L.
  - destruct s; [reflexivity|simpl in L; lia].
  - cbn [replace_all_loop].
    destruct (search adjacent_objects s) as [[b h]|] eqn:E; [|exact E].
    pose proof (search_leftmost _ _ _ _ E) as Left.
    assert (length (after h) < length s)%nat as Sh.
    { eapply search_after_shorter; [|exact E]. vm_compute. lia. }
    pose proof (search_Some _ _ _ _ E) as (s0 & Es & M).
    assert (exists t0, s0 = ch "}" :: t0) as [t0 ->].
    { destruct (proj1 (adjacent_objects_spec s0)) as (t & u & -> & _);
        [congruence|now eexists]. }
    set (R := replace_all_loop n adjacent_objects (js "},{") (after h)).
    assert (search adjacent_objects R = None) as HR by (apply IH; lia).
    apply search_app.
    + intros b1 c b2 Eb.
      apply adjacent_objects_None. intros t u [= -> <-] T.
      change (js "},{" ++ R) with (ch "}" :: (js ",{" ++ R)) in T.
      rewrite trim_start_app in T by reflexivity.
      destruct (trim_start b2) as [|x u'] eqn:Tb; [discriminate T|].
      injection T as -> _.
      assert (match_here adjacent_objects (ch "}" :: b2 ++ ch "}" :: t0) <> None) as N.
      { apply adjacent_objects_spec. eexists _, _. split; [reflexivity|].
        rewrite trim_start_app by reflexivity. rewrite Tb. reflexivity. }
      apply N. eapply Left; [|exact Eb]. rewrite Es, Eb.
      now rewrite <- app_assoc.
    + change (js "},{" ++ R) with (ch "}" :: ch "," :: ch "{" :: R).
      cbn [search].
      rewrite (adjacent_objects_None (ch "}" :: _)),
              (adjacent_objects_None (ch "," :: _)),
              (adjacent_objects_None (ch "{" :: _)), HR; [reflexivity|..].
      * intros t u [= ].
      * intros t u [= ].
      * intros t u [= <-] T. rewrite trim_start_fixed in T by reflexivity.
        discriminate T.
Qed.

(** X14: after the repair of line 88 no closing brace is followed, across white
    space only, by an opening brace; so a second repair changes nothing. *)
Theorem repair_leaves_no_adjacent_objects s :
  search adjacent_objects (replace_all adjacent_objects (js "},{") s) = None /\
  replace_all adjacent_objects (js "},{")
              (replace_all adjacent_objects (js "},{") s)
  = replace_all adjacent_objects (js "},{") s.
Proof.
  assert (search adjacent_objects (replace_all adjacent_objects (js "},{") s)
          = None) as C.
  { apply replace_all_loop_clean. lia. }
  split; [exact C|].
  generalize dependent (replace_all adjacent_objects (js "},{") s).
  intros t C. unfold replace_all.
  destruct (length t); cbn [replace_all_loop]; [reflexivity|now rewrite C].
Qed.

(** * The login route *)

Ltac login_steps H :=
  unfold Login.POST, Login.try_block, Login.field, mbind, Login.result_bind in H;
  repeat (case_match; simplify_eq).

(** X15: a login whose body has no email or no password (or a falsy one) is
    answered 400, before the user is looked up. *)
Theorem login_requires_both_fields env req reqBody :
  Login.json req = Login.Returned reqBody ->
  reqBody <> VNull -> reqBody <> VUndefined ->
  truthy (get_optional reqBody "email") = false \/
  truthy (get_optional reqBody "password") = false ->
  Login.POST env req
  = Some (Login.Response (Login.Error "Email and password are required.") 400).
Proof.
  intros J N U F.
  unfold Login.POST, Login.try_block, Login.field, mbind, Login.result_bind.
  rewrite J.
  assert (forall k, get reqBody k = Some (get_optional reqBody k)) as G.
  { intros k. unfold get_optional, get. destruct reqBody; congruence. }
  rewrite !G.
  assert (negb (truthy (get_optional reqBody "email"))
          || negb (truthy (get_optional reqBody "password")) = true) as ->.
  { destruct F as [-> | ->]; [reflexivity|apply orb_true_r]. }
  reflexivity.
Qed.

(** X15, witness: a login with an empty password. *)
Lemma login_requires_both_fields_witness :
  Login.POST (sample_login_environment (Some (js "secret")))
             (login_request "ada@example.org" EmptyString)
  = Some (Login.Response (Login.Error "Email and password are required.") 400).
Proof.
  apply (login_requires_both_fields _ _ (login_body "ada@example.org" EmptyString));
    [reflexivity|discriminate|discriminate|right; reflexivity].
Defined.

(** X16: an unknown email and a wrong password are answered with the same
    response, 401 with the error of lines 22 and 30. *)
Theorem login_failures_look_alike env req reqBody email password :
  Login.json req = Login.Returned reqBody ->
  get reqBody "email" = Some email -> truthy email = true ->
  get reqBody "password" = Some password -> truthy password = true ->
  Login.findOne env email = Login.Returned None \/
  (exists user, Login.findOne env email = Login.Returned (Some user) /\
                strict_equal (Login.password user) password = false) ->
  Login.POST env req = Some Login.invalid.
Proof.
  intros J E TE P TP F.
  unfold Login.POST, Login.try_block, Login.field, mbind, Login.result_bind.
  rewrite J, E, P, TE, TP. cbn [negb orb].
  destruct F as [-> | (user & -> & ->)]; reflexivity.
Qed.

(** X16, witness: a wrong password, and an unknown email. *)
Lemma login_failures_look_alike_witness :
  Login.POST (sample_login_environment (Some (js "secret")))
             (login_request "ada@example.org" "byron")
  = Some Login.invalid /\
  Login.POST (sample_login_environment (Some (js "secret")))
             (login_request "eve@example.org" "lovelace")
  = Some Login.invalid.
Proof.
  split.
  - apply (login_failures_look_alike _ _ (login_body "ada@example.org" "byron")
             (VStr (js "ada@example.org")) (VStr (js "byron")));
      try reflexivity.
    right. exists sample_user. split; reflexivity.
  - apply (login_failures_look_alike _ _ (login_body "eve@example.org" "lovelace")
             (VStr (js "eve@example.org")) (VStr (js "lovelace")));
      try reflexivity.
    left. reflexivity.
Defined.

(** X17: a login is answered 200 only if a user was found for the email of the
    body, the stored password is strictly equal to the password of the body
    and the secret is configured; the token of the response is the one that
    was signed for that user. *)
Theorem login_token_only_for_matching_password env req r :
  Login.POST env req = Some r -> Login.status r = 200 ->
  exists reqBody email password user secret token,
    Login.json req = Login.Returned reqBody /\
    get reqBody "email" = Some email /\
    get reqBody "password" = Some password /\
    Login.findOne env email = Login.Returned (Some user) /\
    strict_equal (Login.password user) password = true /\
    Login.TOKEN_SECRET env = Some secret /\ secret <> [] /\
    Login.jwt_sign env (Login._id user) (Login.email user) secret
      = Login.Returned token /\
    r = Login.Response (Login.Token "Login successful!" token) 200.
Proof.
  intros H S. login_steps H; try discriminate S.
  match goal with
  | H : negb (strict_equal _ _) = false |- _ => apply negb_false_iff in H
  end.
  eexists _, _, _, _, _, _.
  repeat (split; [eassumption || reflexivity || discriminate|]). reflexivity.
Qed.

(** X17, witness: the login of the sample user. *)
Lemma login_token_only_for_matching_password_witness :
  exists reqBody email password user secret token,
    Login.json (login_request "ada@example.org" "lovelace")
      = Login.Returned reqBody /\
    get reqBody "email" = Some email /\
    get reqBody "password" = Some password /\
    Login.findOne (sample_login_environment (Some (js "secret"))) email
      = Login.Returned (Some user) /\
    strict_equal (Login.password user) password = true /\
    Login.TOKEN_SECRET (sample_login_environment (Some (js "secret")))
      = Some secret /\ secret <> [] /\
    Login.jwt_sign (sample_login_environment (Some (js "secret")))
                   (Login._id user) (Login.email user) secret
      = Login.Returned token /\
    Login.Response (Login.Token "Login successful!" (js "signed")) 200
    = Login.Response (Login.Token "Login successful!" token) 200.
Proof.
  apply (login_token_only_for_matching_password
           (sample_login_environment (Some (js "secret")))
           (login_request "ada@example.org" "lovelace"));
    reflexivity.
Defined.

(** X18: without a configured secret the login of a known user is answered 500
    if the password is right, and 401 if it is wrong: the password is
    compared before the secret is read. *)
Theorem login_without_secret env req reqBody email password user :
  Login.json req = Login.Returned reqBody ->
  get reqBody "email" = Some email -> truthy email = true ->
  get reqBody "password" = Some password -> truthy password = true ->
  Login.findOne env email = Login.Returned (Some user) ->
  Login.TOKEN_SECRET env = None \/ Login.TOKEN_SECRET env = Some [] ->
  Login.POST env req
  = Some (if strict_equal (Login.password user) password
          then Login.Response (Login.Error "Internal Server Error") 500
          else Login.invalid).
Proof.
  intros J E TE P TP F S.
  unfold Login.POST, Login.try_block, Login.field, mbind, Login.result_bind.
  rewrite J, E, P, TE, TP, F. cbn [negb orb].
  destruct (strict_equal _ _); cbn [negb]; [|reflexivity].
  now destruct S as [-> | ->].
Qed.

(** X18, witness: the right and a wrong password of the sample user. *)
Lemma login_without_secret_witness :
  Login.POST (sample_login_environment None)
             (login_request "ada@example.org" "lovelace")
  = Some (Login.Response (Login.Error "Internal Server Error") 500) /\
  Login.POST (sample_login_environment None)
             (login_request "ada@example.org" "byron")
  = Some Login.invalid.
Proof.
  split.
  - apply (login_without_secret (sample_login_environment None) _
             (login_body "ada@example.org" "lovelace")
             (VStr (js "ada@example.org")) (VStr (js "lovelace")) sample_user);
      try reflexivity.
    left. reflexivity.
  - apply (login_without_secret (sample_login_environment None) _
             (login_body "ada@example.org" "byron")
             (VStr (js "ada@example.org")) (VStr (js "byron")) sample_user);
      try reflexivity.
    left. reflexivity.
Defined.

(** * The collection page *)

(** X19: however the request of the effect ends, the page is no longer loading
    afterwards, and the rehost message is as before. *)
Theorem effect_ends_loading f st :
  Collection.loading (Collection.loaded f st) = false /\
  Collection.rehostMessage (Collection.loaded f st) = Collection.rehostMessage st /\
  Collection.render (Collection.loaded f st) <> Next Collection.Loading.
Proof.
  assert (Collection.loading (Collection.loaded f st) = false) as L.
  { unfold Collection.loaded. repeat case_match; reflexivity. }
  split; [exact L|]. split.
  - unfold Collection.loaded. repeat case_match; reflexivity.
  - unfold Collection.render. rewrite L.
    unfold mbind, outcome_bind, obind. repeat case_match; discriminate.
Qed.

(** X20: when the reply to the first load has neither a truthy [success] nor
    a truthy [error], the page shows no error: it shows that there are no
    hosted and no played quizzes. *)
Theorem refusal_without_text_shows_empty_page data :
  data <> VNull -> data <> VUndefined ->
  truthy (get_optional data "success") = false ->
  truthy (get_optional data "error") = false ->
  Collection.render
    (Collection.loaded (Collection.Responded true (Some data)) Collection.initial)
  = Next (Collection.Page None None None).
Proof.
  intros N U S E. unfold Collection.loaded.
  assert (get data "success" = Some (get_optional data "success")) as ->.
  { unfold get_optional, get. destruct data; congruence. }
  rewrite S. unfold Collection.render. cbn. now rewrite E.
Qed.

(** X20, witness: a reply that only says that [success] is false. *)
Lemma refusal_without_text_witness :
  Collection.render
    (Collection.loaded
       (Collection.Responded true (Some (VObj 0 [(js "success", VBool false)])))
       Collection.initial)
  = Next (Collection.Page None None None).
Proof.
  apply refusal_without_text_shows_empty_page;
    [discriminate|discriminate|reflexivity|reflexivity].
Defined.

(** X21: when the reply to the first load has a truthy [success] and no hosted
    quizzes ([undefined] or [null]), rendering the page throws. *)
Theorem success_without_lists_throws data :
  truthy (get_optional data "success") = true ->
  get_optional data "hosted_quizzes" = VUndefined \/
  get_optional data "hosted_quizzes" = VNull ->
  Collection.render
    (Collection.loaded (Collection.Responded true (Some data)) Collection.initial)
  = Throw.
Proof.
  intros S H. unfold Collection.loaded.
  assert (get data "success" = Some (get_optional data "success")) as ->.
  { unfold get_optional, get in *. destruct data; try discriminate S; reflexivity. }
  rewrite S. unfold Collection.render. cbn.
  now destruct H as [-> | ->].
Qed.

(** X21, witness: a reply that only says that [success] is true. *)
Lemma success_without_lists_witness :
  Collection.render
    (Collection.loaded
       (Collection.Responded true (Some (VObj 0 [(js "success", VBool true)])))
       Collection.initial)
  = Throw.
Proof.
  apply success_without_lists_throws; [reflexivity|left; reflexivity].
Defined.

Lemma entries_shows quizzes : forall index es,
  Collection.entries quizzes index = Next es -> Forall2 shows quizzes es.
Proof.
  induction quizzes as [|q quizzes IH]; intros index es; cbn [Collection.entries].
  - intros [= <-]. constructor.
  - unfold Collection.entry_of, mbind, outcome_bind, obind, throwing, covered.
    destruct (get q "_id") as [id|] eqn:I; [|discriminate].
    destruct (to_string id) as [text|]; [|discriminate].
    destruct (get q "title") as [t|] eqn:T; [|discriminate].
    destruct (Collection.entries quizzes (S index)) as [es'| | |] eqn:E;
      try discriminate.
    intros [= <-]. constructor; [now split|eapply IH; eassumption].
Qed.

Lemma list_of_shows quizzes es :
  Collection.list_of quizzes = Next (Some es) ->
  exists ref elems, quizzes = VArr ref elems /\ Forall2 shows elems es.
Proof.
  unfold Collection.list_of, mbind, outcome_bind, obind, throwing.
  destruct (Collection.length_of quizzes) as [len|]; [|discriminate].
  destruct (truthy len); [|discriminate].
  destruct quizzes; try discriminate.
  destruct (Collection.entries elems 0) as [es'| | |] eqn:E; try discriminate.
  intros [= <-]. exists ref, elems. split; [reflexivity|].
  eapply entries_shows; eassumption.
Qed.

(** X22: the entries of the hosted list are, in order, those of the array of
    the collection: each shows the title of its quiz, and its button passes
    the identifier of its quiz to the rehost handler. *)
Theorem hosted_entries_follow_quizzes st hosted message played :
  Collection.render st = Next (Collection.Page (Some hosted) message played) ->
  exists ref elems participated,
    Collection.collection st = Some (VArr ref elems, participated) /\
    Forall2 shows elems hosted.
Proof.
  unfold Collection.render, mbind, outcome_bind, obind.
  destruct (Collection.loading st); [discriminate|].
  destruct (truthy (Collection.error st)); [discriminate|].
  destruct (Collection.collection st) as [[h p]|].
  - destruct (Collection.list_of h) as [[es|]| | |] eqn:H; try discriminate.
    + destruct (Collection.list_of p); try discriminate.
      intros [= <- _ _]. apply list_of_shows in H as (ref & elems & -> & F).
      now exists ref, elems, p.
    + destruct (Collection.list_of p); discriminate.
  - discriminate.
Qed.

(** X22, witness: the sample page. *)
Lemma hosted_entries_follow_quizzes_witness :
  exists ref elems participated,
    Collection.collection sample_page = Some (VArr ref elems, participated) /\
    Forall2 shows elems [sample_entry].
Proof.
  apply (hosted_entries_follow_quizzes sample_page [sample_entry] None None).
  reflexivity.
Defined.

(** X23: the rehost handler changes the rehost message only, to a message that
    is not empty, and a page that is rendered afterwards shows it. *)
Theorem rehost_only_sets_the_message env quizId st st' :
  Collection.handleRehostQuiz env quizId st = Some st' ->
  Collection.collection st' = Collection.collection st /\
  Collection.loading st' = Collection.loading st /\
  Collection.error st' = Collection.error st /\
  Collection.rehostMessage st' <> [] /\
  forall hosted message played,
    Collection.render st' = Next (Collection.Page hosted message played) ->
    message = Some (Collection.rehostMessage st').
Proof.
  intros H.
  assert (exists m, m <> [] /\ st' = Collection.setRehostMessage m st) as (m & Hm & ->).
  { unfold Collection.handleRehostQuiz, Collection.rehost_failed in H.
    destruct (Collection.rehost env quizId) as [rawText|];
      [|injection H as <-; eexists; split; [|reflexivity]; discriminate].
    destruct (JSON_parse rawText) as [data|];
      [|injection H as <-; eexists; split; [|reflexivity]; discriminate].
    destruct (get data "success") as [success|];
      [|injection H as <-; eexists; split; [|reflexivity]; discriminate].
    destruct (truthy success).
    - destruct (to_string quizId) as [id|]; [|discriminate H].
      destruct (to_string (get_optional data "join_code")) as [code|];
        [|discriminate H].
      injection H as <-; eexists; split; [|reflexivity]; discriminate.
    - destruct (to_string (get_optional data "error")) as [text|];
        [|discriminate H].
      injection H as <-; eexists; split; [|reflexivity]; discriminate. }
  cbn. repeat (split; [reflexivity || assumption|]).
  intros hosted message played.
  unfold Collection.render, mbind, outcome_bind, obind. cbn.
  repeat (case_match; simplify_eq); try discriminate; try congruence;
    intros [= <- <- <-]; reflexivity.
Qed.

(** X23, witness: a rehost of the quiz of the sample page. *)
Lemma rehost_only_sets_the_message_witness :
  Collection.collection
    (Collection.setRehostMessage
       (js "New session created for quiz q1! Join code: K7Q2XA") sample_page)
  = Collection.collection sample_page /\
  Collection.loading
    (Collection.setRehostMessage
       (js "New session created for quiz q1! Join code: K7Q2XA") sample_page)
  = Collection.loading sample_page /\
  Collection.error
    (Collection.setRehostMessage
       (js "New session created for quiz q1! Join code: K7Q2XA") sample_page)
  = Collection.error sample_page /\
  Collection.rehostMessage
    (Collection.setRehostMessage
       (js "New session created for quiz q1! Join code: K7Q2XA") sample_page)
  <> [] /\
  forall hosted message played,
    Collection.render
      (Collection.setRehostMessage
         (js "New session created for quiz q1! Join code: K7Q2XA") sample_page)
    = Next (Collection.Page hosted message played) ->
    message
    = Some (Collection.rehostMessage
              (Collection.setRehostMessage
                 (js "New session created for quiz q1! Join code: K7Q2XA")
                 sample_page)).
Proof.
  apply (rehost_only_sets_the_message sample_rehost (VStr (js "q1"))).
  vm_compute. reflexivity.
Defined.

(** ** Keys *)

Lemma js_inj s t : js s = js t -> s = t.
Proof.
  unfold js. intros H.
  rewrite <- (string_of_list_ascii_of_string s),
          <- (string_of_list_ascii_of_string t).
  f_equal. revert H.
  generalize (list_ascii_of_string s) (list_ascii_of_string t).
  intros l. induction l as [|a l IH]; intros [|b l']; cbn; try discriminate.
  - reflexivity.
  - intros [= A L]. f_equal; [|now apply IH].
    unfold ch in A.
    now rewrite <- (ascii_N_embedding a), <- (ascii_N_embedding b), A.
Qed.

Lemma to_uint_not_Nil n : N.to_uint n <> Decimal.Nil.
Proof.
  destruct n as [|p]; [discriminate|]. cbn. apply Unsigned.to_uint_nonnil.
Qed.

Lemma decimal_string_NilEmpty n :
  decimal_string n = js (NilEmpty.string_of_uint (N.to_uint n)).
Proof.
  unfold decimal_string, NilZero.string_of_uint.
  pose proof (to_uint_not_Nil n). now destruct (N.to_uint n).
Qed.

Lemma decimal_string_inj m n : decimal_string m = decimal_string n -> m = n.
Proof.
  rewrite !decimal_string_NilEmpty. intros H%js_inj.
  apply DecimalN.Unsigned.to_uint_inj.
  assert (Some (N.to_uint m) = Some (N.to_uint n)) as [= E]; [|exact E].
  now rewrite <- !NilEmpty.usu, H.
Qed.

Lemma decimal_string_no_dash n :
  Forall (fun c => c <> ch "-") (decimal_string n).
Proof.
  rewrite decimal_string_NilEmpty. generalize (N.to_uint n). intros d.
  induction d; cbn; constructor; try assumption; discriminate.
Qed.

Lemma before_separator (d : N) x : forall y a b,
  Forall (fun c => c <> d) x -> Forall (fun c => c <> d) y ->
  x ++ d :: a = y ++ d :: b -> x = y.
Proof.
  induction x as [|c x IH]; intros [|c' y] a b Fx Fy; cbn.
  - reflexivity.
  - intros [= <- _]. inversion Fy; congruence.
  - intros [= -> _]. inversion Fx; congruence.
  - intros [= <- E]. inversion Fx; inversion Fy; subst. f_equal. eauto.
Qed.

Lemma after_separator (d : N) a b x y :
  Forall (fun c => c <> d) x -> Forall (fun c => c <> d) y ->
  a ++ d :: x = b ++ d :: y -> x = y.
Proof.
  intros Fx Fy E. apply (f_equal (@rev N)) in E.
  rewrite !rev_app_distr in E. cbn in E. rewrite <- !app_assoc in E. cbn in E.
  apply before_separator in E.
  - now rewrite <- (rev_involutive x), <- (rev_involutive y), E.
  - apply Forall_rev. exact Fx.
  - apply Forall_rev. exact Fy.
Qed.

Lemma entries_keys quizzes : forall index es k e,
  Collection.entries quizzes index = Next es -> es !! k = Some e ->
  exists text,
    Collection.key e = text ++ js "-" ++ decimal_string (N.of_nat (index + k)).
Proof.
  induction quizzes as [|q quizzes IH]; intros index es k e; cbn [Collection.entries].
  - intros [= <-]. discriminate.
  - unfold mbind, outcome_bind, obind.
    destruct (Collection.entry_of q index) as [e0| | |] eqn:E0; try discriminate.
    destruct (Collection.entries quizzes (S index)) as [es'| | |] eqn:E;
      try discriminate.
    intros [= <-]. destruct k as [|k]; cbn.
    + intros [= <-]. revert E0.
      unfold Collection.entry_of, mbind, outcome_bind, obind, throwing, covered.
      destruct (get q "_id") as [id|]; [|discriminate].
      destruct (to_string id) as [text|]; [|discriminate].
      destruct (get q "title") as [t|]; [|discriminate].
      intros [= <-]. exists text. cbn [Collection.key].
      now rewrite Nat.add_0_r.
    + intros L. destruct (IH _ _ _ _ E L) as (text & ->). exists text.
      now replace (index + S k)%nat with (S index + k)%nat by lia.
Qed.

Lemma entries_NoDup quizzes index es :
  Collection.entries quizzes index = Next es -> NoDup (Collection.key <$> es).
Proof.
  intros E. apply NoDup_alt. intros i j x.
  rewrite !list_lookup_fmap.
  destruct (es !! i) as [ei|] eqn:Ei; [|discriminate].
  destruct (es !! j) as [ej|] eqn:Ej; [|discriminate].
  cbn. intros [= <-] [= K].
  destruct (entries_keys _ _ _ _ _ E Ei) as (a & Ka).
  destruct (entries_keys _ _ _ _ _ E Ej) as (b & Kb).
  rewrite Ka, Kb in K. change (js "-") with [ch "-"] in K. cbn [app] in K.
  apply after_separator in K; try apply decimal_string_no_dash.
  apply decimal_string_inj in K. lia.
Qed.

(** X24: the keys of the entries of a list are distinct, also when two quizzes
    have the same identifier. *)
Theorem keys_are_distinct st hosted message played :
  Collection.render st = Next (Collection.Page hosted message played) ->
  NoDup (Collection.key <$> default [] hosted) /\
  NoDup (Collection.key <$> default [] played).
Proof.
  assert (forall v l, Collection.list_of v = Next l ->
            NoDup (Collection.key <$> default [] l)) as L.
  { intros v l. unfold Collection.list_of, mbind, outcome_bind, obind, throwing.
    destruct (Collection.length_of v) as [len|]; [|discriminate].
    destruct (truthy len); [|intros [= <-]; constructor].
    destruct v; try discriminate.
    destruct (Collection.entries elems 0) as [es| | |] eqn:E; try discriminate.
    intros [= <-]. eapply entries_NoDup; eassumption. }
  unfold Collection.render, mbind, outcome_bind, obind.
  destruct (Collection.loading st); [discriminate|].
  destruct (truthy (Collection.error st)); [discriminate|].
  destruct (Collection.collection st) as [[h p]|].
  - destruct (Collection.list_of h) as [hs| | |] eqn:H; try discriminate.
    destruct (Collection.list_of p) as [ps| | |] eqn:P; try discriminate.
    intros [= <- _ <-]. split; eapply L; eassumption.
  - intros [= <- _ <-]. split; constructor.
Qed.

(** X24, witness: a page on which both hosted quizzes have the identifier
    q1, and both played quizzes too. *)
Lemma keys_are_distinct_witness :
  Collection.key <$> [twin_entry 0 "Rivers"; twin_entry 1 "Lakes"]
  = [js "q1-0"; js "q1-1"] /\
  NoDup (Collection.key
           <$> default [] (Some [twin_entry 0 "Rivers"; twin_entry 1 "Lakes"]))
  /\
  NoDup (Collection.key
           <$> default [] (Some [twin_entry 0 "Rivers"; twin_entry 1 "Seas"])).
Proof.
  split; [reflexivity|].
  apply (keys_are_distinct twin_page
           (Some [twin_entry 0 "Rivers"; twin_entry 1 "Lakes"]) None
           (Some [twin_entry 0 "Rivers"; twin_entry 1 "Seas"])).
  reflexivity.
Defined.
